(** * The honeypot database layer (src/backend/database/init.sql) in Rocq

    A shallow embedding of the PL/pgSQL functions, the enumerated types and
    the views that [init.sql] installs, together with the properties the
    specification states about risk scoring, severities and alerts.

    Conventions of the embedding.
    - [INTEGER] is PostgreSQL's 32-bit [int4].  Its arithmetic does not wrap:
      a product that leaves the range raises [integer out of range].  The
      model carries integers as [Z] and makes that error explicit.
    - [FLOAT] ([double precision]) values are carried as exact rationals
      [Q]; the literals [1.2], [1.5], [2.0], [100.0] are the rationals
      they denote.  Rounding of binary floating point is not modelled,
      except where a cast to [FLOAT] raises because the value does not
      fit.
    - A [JSONB] document is any JSON value; a NULL document is [None].  The
      scalar arguments of [calculate_risk_score] are taken non-NULL, and
      [session_duration] a number, not [NaN] or an infinity.
    - A [timestamp] is a count of microseconds.  [NOW()] and [random()] are
      not functions of the database state: a definition that calls them
      takes the value read as an argument.
    - The tables [attack_events], [security_alerts] and
      [attacker_fingerprints] are declared by the application, not by
      [init.sql]; their rows carry the columns the views name, with the
      enumerated types of [init.sql] for severity, attack type and status.
      The attack type and the country of an event may be NULL; the other
      columns are taken non-NULL.
    - The normalizer, the aggregator of attacker profiles and the alert
      engine have no code in [init.sql]; their definitions follow the
      specification and say so. *)

From Stdlib Require Import ZArith QArith Qminmax Qabs Lqa List Sorted Ascii.
From stdpp Require Import gmap strings list.

Local Open Scope Z_scope.

(** ** Errors raised by the database engine *)

(** The errors that the functions of [init.sql] can raise, by their
    message: "integer out of range" and "... is out of range for type
    double precision" (both SQLSTATE 22003), and "invalid input syntax for
    type double precision" (SQLSTATE 22P02). *)
Inductive sql_error : Set :=
| integer_out_of_range
| double_precision_out_of_range
| invalid_input_syntax.

Inductive result (A : Type) : Type :=
| Ok (a : A)
| Raise (e : sql_error).

Arguments Ok {A} a.
Arguments Raise {A} e.

Definition bind {A B : Type} (r : result A) (k : A -> result B) : result B :=
  match r with
  | Ok a => k a
  | Raise e => Raise e
  end.

Notation "'let*' x ':=' r 'in' k" := (bind r (fun x => k))
  (at level 10, x name, r at level 100, k at level 200).

(** ** [INTEGER] arithmetic *)

Definition int4_min : Z := - 2 ^ 31.
Definition int4_max : Z := 2 ^ 31 - 1.

Definition in_int4 (z : Z) : bool := (int4_min <=? z) && (z <=? int4_max).

(** [a * b] on two [INTEGER]s. *)
Definition int4mul (a b : Z) : result Z :=
  if in_int4 (a * b) then Ok (a * b) else Raise integer_out_of_range.

(** ** [FLOAT] values read from text *)

(** A [double precision] value: a number, or one of the three values
    [Infinity], [-Infinity] and [NaN] that the type also holds. *)
Inductive float8 : Type :=
| float8_finite (x : Q)
| float8_infinity
| float8_minus_infinity
| float8_nan.

(** [a > b] on [double precision]: PostgreSQL takes [NaN] as equal to
    itself and greater than every other value. *)
Definition float8gt (a b : float8) : bool :=
  match a, b with
  | _, float8_nan => false
  | float8_nan, _ => true
  | float8_minus_infinity, _ => false
  | _, float8_minus_infinity => true
  | _, float8_infinity => false
  | float8_infinity, _ => true
  | float8_finite x, float8_finite y => if Qlt_le_dec y x then true else false
  end.

(** Half the least positive [double precision] number, 2^-1075: a number
    that is not zero and no further from zero rounds to zero. *)
Definition float8_least_half : Q := 1 # (2 ^ 1075).

(** Halfway between the greatest [double precision] number and 2^1024: a
    number at least this far from zero rounds to an infinity. *)
Definition float8_overflow : Q := inject_Z (2 ^ 1024 - 2 ^ 970).

(** Reading the exact decimal or hexadecimal number [x] as [double
    precision]: "out of range" when [x] rounds to an infinity, or to zero
    without being zero.  The value that is kept is [x] itself, not its
    nearest [double precision] number; the two have the same sign. *)
Definition float8_round (x : Q) : result float8 :=
  if Qeq_bool x 0 then Ok (float8_finite 0)
  else if Qle_bool (Qabs x) float8_least_half
  then Raise double_precision_out_of_range
  else if Qle_bool float8_overflow (Qabs x)
  then Raise double_precision_out_of_range
  else Ok (float8_finite x).

(** Characters, as the C library of the server classifies them. *)
Definition code (c : ascii) : Z := Z.of_N (N_of_ascii c).

Definition is_space (c : ascii) : bool :=
  (code c =? 32) || ((9 <=? code c) && (code c <=? 13)).

Definition to_lower (c : ascii) : ascii :=
  if (65 <=? code c) && (code c <=? 90)
  then ascii_of_N (N_of_ascii c + 32) else c.

Definition digit (c : ascii) : option Z :=
  if (48 <=? code c) && (code c <=? 57) then Some (code c - 48) else None.

Definition hex_digit (c : ascii) : option Z :=
  match digit c with
  | Some d => Some d
  | None =>
      let n := code (to_lower c) in
      if (97 <=? n) && (n <=? 102) then Some (n - 87) else None
  end.

Fixpoint skip_spaces (s : string) : string :=
  match s with
  | String c s' => if is_space c then skip_spaces s' else s
  | EmptyString => s
  end.

(** The digits at the head of [s]: their value on top of [acc], their
    number on top of [n], and what follows them. *)
Fixpoint read_digits (digit : ascii -> option Z) (base acc n : Z) (s : string)
  : Z * Z * string :=
  match s with
  | String c s' =>
      match digit c with
      | Some d => read_digits digit base (acc * base + d) (n + 1) s'
      | None => (acc, n, s)
      end
  | EmptyString => (acc, n, s)
  end.

Definition read_sign (s : string) : bool * string :=
  match s with
  | String "-" s' => (true, s')
  | String "+" s' => (false, s')
  | _ => (false, s)
  end.

(** Digits with at most one point among them and at least one digit: the
    value of the digits with the point left out, the number of digits
    after the point, and what follows. *)
Definition read_mantissa (digit : ascii -> option Z) (base : Z) (s : string)
  : option (Z * Z * string) :=
  let '(i, ni, s1) := read_digits digit base 0 0 s in
  match s1 with
  | String "." s2 =>
      let '(m, nf, s3) := read_digits digit base i 0 s2 in
      if 0 <? ni + nf then Some (m, nf, s3) else None
  | _ => if 0 <? ni then Some (i, 0, s1) else None
  end.

(** An exponent: the letter [mark] in either case, a sign or none, and at
    least one decimal digit.  Without a digit nothing is read. *)
Definition read_exponent (mark : ascii) (s : string) : Z * string :=
  match s with
  | String c s1 =>
      if bool_decide (to_lower c = mark) then
        let '(neg, s2) := read_sign s1 in
        let '(e, n, s3) := read_digits digit 10 0 0 s2 in
        if 0 <? n then (if neg then - e else e, s3) else (0, s)
      else (0, s)
  | EmptyString => (0, s)
  end.

(** What follows the lower-case [word] at the head of [s], letters of [s]
    in either case. *)
Fixpoint strip_prefix (word s : string) : option string :=
  match word, s with
  | EmptyString, _ => Some s
  | String w word', String c s' =>
      if bool_decide (to_lower c = w) then strip_prefix word' s' else None
  | String _ _, EmptyString => None
  end.

Fixpoint skip_name (s : string) : string :=
  match s with
  | String c s' =>
      let n := code (to_lower c) in
      if ((97 <=? n) && (n <=? 122)) || ((48 <=? n) && (n <=? 57)) || (n =? 95)
      then skip_name s' else s
  | EmptyString => s
  end.

(** The parenthesised tag that may follow [nan]. *)
Definition read_nan_tag (s : string) : string :=
  match s with
  | String "(" s1 =>
      match skip_name s1 with
      | String ")" s2 => s2
      | _ => s
      end
  | _ => s
  end.

(** [m * base ^ e], exactly. *)
Definition scaled (m base e : Z) : Q :=
  if 0 <=? e then inject_Z (m * base ^ e) else m # Z.to_pos (base ^ (- e)).

Definition negate (neg : bool) (x : Q) : Q := if neg then (- x)%Q else x.

Inductive scanned : Type :=
| scanned_number (x : Q)
| scanned_infinity (neg : bool)
| scanned_nan.

(** [strtod] of the C library, on which [float8in] relies, as glibc and
    musl have it: the longest head of [s] that is a number, and what
    follows it.  A number is a sign or none, then [infinity] or [inf],
    [nan] with or without a tag, a hexadecimal number after [0x] with an
    exponent of two after [p], or a decimal number with an exponent of ten
    after [e].  The number is returned exactly; [float8in] rounds it. *)
Definition strtod (s : string) : option (scanned * string) :=
  let '(neg, s1) := read_sign s in
  match strip_prefix "infinity" s1, strip_prefix "inf" s1,
        strip_prefix "nan" s1 with
  | Some rest, _, _ => Some (scanned_infinity neg, rest)
  | None, Some rest, _ => Some (scanned_infinity neg, rest)
  | None, None, Some rest => Some (scanned_nan, read_nan_tag rest)
  | None, None, None =>
      match strip_prefix "0x" s1 ≫= read_mantissa hex_digit 16 with
      | Some (m, nf, rest) =>
          let '(p, rest) := read_exponent "p" rest in
          Some (scanned_number (negate neg (scaled m 2 (p - 4 * nf))), rest)
      | None =>
          match read_mantissa digit 10 s1 with
          | Some (m, nf, rest) =>
              let '(e, rest) := read_exponent "e" rest in
              Some (scanned_number (negate neg (scaled m 10 (e - nf))), rest)
          | None => None
          end
      end
  end.

(** [text::FLOAT], the input function [float8in] of PostgreSQL: spaces
    are skipped on both sides of the number; text without a number, or
    with anything else after it, is "invalid input syntax"; a number that
    does not fit is "out of range", whatever follows it. *)
Definition float8in (num : string) : result float8 :=
  match strtod (skip_spaces num) with
  | None => Raise invalid_input_syntax
  | Some (v, rest) =>
      let* val :=
        match v with
        | scanned_number x => float8_round x
        | scanned_infinity neg =>
            Ok (if neg then float8_minus_infinity else float8_infinity)
        | scanned_nan => Ok float8_nan
        end in
      match skip_spaces rest with
      | EmptyString => Ok val
      | String _ _ => Raise invalid_input_syntax
      end
  end.

(** ** [JSONB] *)

(** A [JSONB] value.  A number is a [numeric], carried as the rational it
    denotes; the keys of an object are distinct. *)
#[warnings="-register-all"]
Inductive jsonb : Type :=
| jnull
| jbool (b : bool)
| jnumber (x : Q)
| jstring (s : string)
| jarray (elements : list jsonb)
| jobject (members : gmap string jsonb).

(** [j -> key]: the member [key] of an object; NULL when [j] has no such
    member or is not an object. *)
Definition jsonb_object_field (j : jsonb) (key : string) : option jsonb :=
  match j with
  | jobject members => members !! key
  | _ => None
  end.

(** [(j ->> key)::FLOAT].  The operator [->>] gives the member as text,
    and NULL for a member that is missing or is the JSON null; the cast
    reads the text with [float8in].  The text of a number is its decimal
    expansion, which is read back as that number; the text of a string is
    the string; the text of a boolean is [true] or [false] and the text of
    an array or an object starts with a bracket or a brace, none of which
    [float8in] accepts. *)
Definition jsonb_field_as_float (j : jsonb) (key : string)
  : result (option float8) :=
  match jsonb_object_field j key with
  | None | Some jnull => Ok None
  | Some (jnumber x) => let* val := float8_round x in Ok (Some val)
  | Some (jstring s) => let* val := float8in s in Ok (Some val)
  | Some (jbool _) | Some (jarray _) | Some (jobject _) =>
      Raise invalid_input_syntax
  end.

(** ** [severity_level], [attack_type], [alert_status] (init.sql 16-36) *)

Inductive severity_level : Set := low | medium | high | critical.

Inductive attack_type : Set :=
| sql_injection | xss | csrf | brute_force | ddos
| port_scan | vulnerability_scan | malware | phishing
| privilege_escalation | data_exfiltration | unknown.

Inductive alert_status : Set := open | investigating | resolved | false_positive.

(** ** [calculate_risk_score] (init.sql 59-92) *)

Module RiskScore.

Local Open Scope Q_scope.

(** [(severity_weights->>key)::FLOAT > 0] on a non-NULL [severity_weights]
    (lines 82 and 85).  The cast can raise; a comparison with NULL is NULL
    and the [IF] does not fire. *)
Definition weight_positive (severity_weights : jsonb) (key : string)
  : result bool :=
  let* weight := jsonb_field_as_float severity_weights key in
  Ok (match weight with
      | Some val => float8gt val (float8_finite 0)
      | None => false
      end).

(** Lines 80-88: the value of [severity_multiplier] when line 90 is
    reached. *)
Definition severity_multiplier (severity_weights : option jsonb) : result Q :=
  let severity_multiplier := 1.0 in
  match severity_weights with
  | Some w =>
      let* high_positive := weight_positive w "high" in
      let severity_multiplier :=
        if high_positive then severity_multiplier * 1.5
        else severity_multiplier in
      let* critical_positive := weight_positive w "critical" in
      let severity_multiplier :=
        if critical_positive then severity_multiplier * 2.0
        else severity_multiplier in
      Ok severity_multiplier
  | None => Ok severity_multiplier
  end.

(** Lines 69-78: the value of [base_score] when line 80 is reached. *)
Definition base_score (attack_count unique_endpoints : Z) (session_duration : Q)
  : result Q :=
  let* a10 := int4mul attack_count 10 in
  let base_score := inject_Z (Z.min a10 50) in
  let* u2 := int4mul unique_endpoints 2 in
  let base_score := base_score + inject_Z u2 in
  let base_score :=
    if Qlt_le_dec 3600 session_duration then base_score * 1.2
    else base_score in
  Ok base_score.

Definition calculate_risk_score (attack_count unique_endpoints : Z)
  (session_duration : Q) (severity_weights : option jsonb) : result Q :=
  let* base_score := base_score attack_count unique_endpoints session_duration in
  let* severity_multiplier := severity_multiplier severity_weights in
  Ok (Qmin (base_score * severity_multiplier) 100.0).

(** The outcome of the test on [key] at lines 82 / 85: whether a
    [key]-severity event is recorded in [severity_weights], or the error
    of the cast.  Without a document neither test is made. *)
Definition severity_present (severity_weights : option jsonb) (key : string)
  : result bool :=
  match severity_weights with
  | Some w => weight_positive w key
  | None => Ok false
  end.

(** [sw'] records high, respectively critical, presence whenever [sw]
    does. *)
Definition severity_included (sw sw' : option jsonb) : Prop :=
  (severity_present sw "high" = Ok true ->
   severity_present sw' "high" = Ok true) /\
  (severity_present sw "critical" = Ok true ->
   severity_present sw' "critical" = Ok true).

(** The running total in the words of the specification (section 4.6):
    base is [min(attackCount * 10, 50)], then [uniqueEndpoints * 2] is
    added, then the total is multiplied by [1.2] if the session lasted
    more than an hour. *)
Definition spec_running_total (attackCount uniqueEndpoints : Z)
  (sessionDuration : Q) : Q :=
  let base := Qmin (inject_Z attackCount * 10) 50 in
  let total := base + inject_Z uniqueEndpoints * 2 in
  if Qlt_le_dec 3600 sessionDuration then total * 1.2 else total.

(** The ranges of the attack count and of the number of unique endpoints
    in which [attack_count * 10] and [unique_endpoints * 2] are
    [INTEGER]s. *)
Definition counts_in_range (attack_count unique_endpoints : Z) : Prop :=
  (-214748364 <= attack_count <= 214748364)%Z /\
  (-1073741824 <= unique_endpoints <= 1073741823)%Z.

(** A [severity_weights] document whose high weight is not positive and
    that carries keys the function does not read. *)
Definition weights_ignored : jsonb :=
  jobject {[ "high" := jnumber 0; "medium" := jnumber 7;
             "low" := jstring "many" ]}.

(** Sample [severity_weights] documents. *)
Definition weights_high : jsonb := jobject {[ "high" := jnumber 1 ]}.
Definition weights_critical : jsonb := jobject {[ "critical" := jnumber 1 ]}.

(** Documents whose high weight cannot be cast: the number 1e400, and
    text that is not a number; the second has a positive critical
    weight. *)
Definition weights_too_large : jsonb :=
  jobject {[ "high" := jnumber (inject_Z (10 ^ 400)) ]}.

End RiskScore.

(** ** Time *)

Definition microseconds_per_hour : Z := 3600 * 1000000.

(** [DATE_TRUNC('hour', ts)]. *)
Definition date_trunc_hour (ts : Z) : Z := ts - ts mod microseconds_per_hour.

(** [INTERVAL '24 hours']. *)
Definition interval_24_hours : Z := 24 * microseconds_per_hour.

(** ** Tables

    [init.sql] leaves the CREATE TABLE statements to the application
    ("will be created by SQLAlchemy models"); the rows below carry the
    columns that the views of [init.sql] read. *)

Module AttackEvents.

(** Modelled from the spec: the [attack_events] table, whose declaration is
    not in [init.sql] (AttackEvent of section 3: identifier, timestamp,
    source identity, endpoint path, country tag, attack-type label,
    severity, anomaly score), under the column names the views use.  The
    attack-type label is NULL until the event is classified, and the
    country tag is NULL when none was derived. *)
Record row : Type := {
  id : Z;
  timestamp : Z;
  source_ip : string;
  endpoint : string;
  country : option string;
  attack_type : option attack_type;
  severity : severity_level;
  anomaly_score : Q
}.

End AttackEvents.

Module SecurityAlerts.

(** Modelled from the spec: the [security_alerts] table, whose declaration
    is not in [init.sql] (SecurityAlert of section 3: identifier, creation
    timestamp, alert type, severity, confidence, source identity, endpoint,
    contributing event identifiers, status), under the column names the
    view [real_time_alerts] uses. *)
Record row : Type := {
  id : Z;
  alert_id : string;
  timestamp : Z;
  alert_type : string;
  severity : severity_level;
  title : string;
  description : string;
  source_ip : string;
  affected_endpoint : string;
  confidence : Q;
  status : alert_status;
  attack_event_ids : list Z
}.

End SecurityAlerts.

Module AttackerFingerprints.

(** Modelled from the spec: the [attacker_fingerprints] table, whose
    declaration is not in [init.sql] (AttackerProfile of section 3), under
    the column names the view [threat_intelligence] uses. *)
Record row : Type := {
  id : Z;
  source_ip : string;
  first_seen : Z;
  last_seen : Z;
  total_requests : Z;
  unique_endpoints : Z;
  risk_score : Q;
  threat_level : string;
  is_bot : bool
}.

End AttackerFingerprints.

(** ** Decidable equality of the enumerated types *)

#[global] Instance severity_level_eq_dec : EqDecision severity_level.
Proof. solve_decision. Defined.

#[global] Instance attack_type_eq_dec : EqDecision attack_type.
Proof. solve_decision. Defined.

#[global] Instance alert_status_eq_dec : EqDecision alert_status.
Proof. solve_decision. Defined.

(** ** Query operators *)

(** [ORDER BY]: insertion into a list ordered by [before], where
    [before x y] says that [x] may be listed no later than [y].  Rows that
    tie keep their input order; SQL leaves their order open. *)
Fixpoint insert_ordered {A : Type} (before : A -> A -> bool) (x : A)
  (l : list A) : list A :=
  match l with
  | [] => [x]
  | y :: l' => if before x y then x :: l else y :: insert_ordered before x l'
  end.

Definition order_by {A : Type} (before : A -> A -> bool) (l : list A) : list A :=
  foldr (insert_ordered before) [] l.

(** [COUNT(...)] of the listed values. *)
Definition sql_count {A : Type} (l : list A) : Z := Z.of_nat (length l).

(** [AVG(...)]: NULL over no rows. *)
Definition sql_avg (l : list Q) : option Q :=
  match l with
  | [] => None
  | _ => Some (foldr Qplus 0%Q l / inject_Z (sql_count l))%Q
  end.

(** ** Ordering of [severity_level] (init.sql 17)

    PostgreSQL compares the values of an enumerated type by the position of
    their labels in the CREATE TYPE statement. *)

Definition severity_sort_order (s : severity_level) : Z :=
  match s with
  | low => 1
  | medium => 2
  | high => 3
  | critical => 4
  end.

Definition severity_le (a b : severity_level) : bool :=
  severity_sort_order a <=? severity_sort_order b.

Definition severity_lt (a b : severity_level) : bool :=
  severity_sort_order a <? severity_sort_order b.

Definition severity_larger (a b : severity_level) : severity_level :=
  if severity_lt a b then b else a.

(** [MAX(severity)]: NULL over no rows. *)
Definition sql_max_severity (l : list severity_level) : option severity_level :=
  match l with
  | [] => None
  | s :: l' => Some (fold_left severity_larger l' s)
  end.

(** The running maximum in the words of the specification: critical if any
    event is critical, else high if any is high, else medium if any is
    medium, else low. *)
Definition highest_present (l : list severity_level) : severity_level :=
  if bool_decide (critical ∈ l) then critical
  else if bool_decide (high ∈ l) then high
  else if bool_decide (medium ∈ l) then medium
  else low.

(** ** The running maximum severity of an attacker (specification,
    sections 3 and 4.5) *)

Module Aggregator.

(** Modelled from the spec: [update] of section 4.5, for the running
    maximum severity of the attacker profiles, which are keyed by source
    identity (AttackerProfile of section 3): fetch or create the profile
    of the event's source and update its maximum severity under the
    ordering of [severity_level].  The aggregator is not part of
    [init.sql]. *)
Definition update_max_severity (profiles : gmap string severity_level)
  (e : AttackEvents.row) : gmap string severity_level :=
  let source := AttackEvents.source_ip e in
  let running_max :=
    match profiles !! source with
    | Some m => severity_larger m (AttackEvents.severity e)
    | None => AttackEvents.severity e
    end in
  <[source := running_max]> profiles.

(** The running maxima after the events have been taken in, in their
    order. *)
Definition aggregate_all (events : list AttackEvents.row)
  : gmap string severity_level :=
  fold_left update_max_severity events ∅.

(** The events of one source. *)
Definition observed (source : string) (events : list AttackEvents.row)
  : list AttackEvents.row :=
  filter (fun e => AttackEvents.source_ip e = source) events.

End Aggregator.

(** ** The view [attack_statistics] (init.sql 95-108) *)

Module AttackStatistics.

Record row : Type := {
  hour : Z;
  source_ip : string;
  attack_count : Z;
  unique_endpoints : Z;
  attack_types : Z;
  avg_anomaly_score : option Q;
  max_severity : option severity_level;
  attack_types_list : list (option attack_type)
}.

(** [WHERE timestamp >= NOW() - INTERVAL '24 hours']. *)
Definition recent (now : Z) (e : AttackEvents.row) : Prop :=
  now - interval_24_hours <= AttackEvents.timestamp e.

#[global] Instance recent_dec now e : Decision (recent now e).
Proof. unfold recent. apply _. Defined.

(** [GROUP BY DATE_TRUNC('hour', timestamp), source_ip]. *)
Definition group_key (e : AttackEvents.row) : Z * string :=
  (date_trunc_hour (AttackEvents.timestamp e), AttackEvents.source_ip e).

(** The rows of one group. *)
Definition group_rows (k : Z * string) (events : list AttackEvents.row)
  : list AttackEvents.row :=
  filter (fun e => group_key e = k) events.

(** The select list, evaluated over the rows of one group.
    [COUNT(DISTINCT attack_type)] leaves NULLs out, [array_agg(DISTINCT
    attack_type)] keeps a NULL like any other value; the order of the
    elements of the array is not modelled. *)
Definition aggregate (k : Z * string) (g : list AttackEvents.row) : row :=
  {| hour := fst k;
     source_ip := snd k;
     attack_count := sql_count g;
     unique_endpoints := sql_count (remove_dups (AttackEvents.endpoint <$> g));
     attack_types := sql_count (remove_dups (omap AttackEvents.attack_type g));
     avg_anomaly_score := sql_avg (AttackEvents.anomaly_score <$> g);
     max_severity := sql_max_severity (AttackEvents.severity <$> g);
     attack_types_list := remove_dups (AttackEvents.attack_type <$> g) |}.

(** [ORDER BY hour DESC, attack_count DESC]. *)
Definition listed_before (r1 r2 : row) : bool :=
  (hour r2 <? hour r1) ||
  ((hour r1 =? hour r2) && (attack_count r2 <=? attack_count r1)).

Definition attack_statistics (now : Z) (attack_events : list AttackEvents.row)
  : list row :=
  let selected := filter (recent now) attack_events in
  let keys := remove_dups (group_key <$> selected) in
  order_by listed_before
    ((fun k => aggregate k (group_rows k selected)) <$> keys).

(** Sample events: three from one source in one hour, one from another. *)
Definition sample_event (n ts : Z) (ip : string) (sv : severity_level)
  : AttackEvents.row :=
  {| AttackEvents.id := n; AttackEvents.timestamp := ts;
     AttackEvents.source_ip := ip; AttackEvents.endpoint := "/api/honeypots/sql";
     AttackEvents.country := Some "ZZ";
     AttackEvents.attack_type := Some sql_injection;
     AttackEvents.severity := sv; AttackEvents.anomaly_score := 0.5%Q |}.

Definition sample_events : list AttackEvents.row :=
  [sample_event 1 100 "203.0.113.7" low;
   sample_event 2 200 "203.0.113.7" critical;
   sample_event 3 300 "198.51.100.2" medium;
   sample_event 4 400 "203.0.113.7" high].

Definition sample_row : row :=
  {| hour := 0; source_ip := "203.0.113.7"; attack_count := 3;
     unique_endpoints := 1; attack_types := 1;
     avg_anomaly_score := Some (1500 # 3000);
     max_severity := Some critical;
     attack_types_list := [Some sql_injection] |}.

(** Events of the same source, one of them older than the 24 hours before
    [now = 90000000000] (25 hours). *)
Definition aged_events : list AttackEvents.row :=
  [sample_event 5 100 "203.0.113.7" critical;
   sample_event 6 86400000000 "203.0.113.7" low;
   sample_event 7 86400000500 "203.0.113.7" medium].

(** Events that are not classified yet, and one that is. *)
Definition pending_event (n ts : Z) (ip : string) : AttackEvents.row :=
  {| AttackEvents.id := n; AttackEvents.timestamp := ts;
     AttackEvents.source_ip := ip; AttackEvents.endpoint := "/api/honeypots/xss";
     AttackEvents.country := None; AttackEvents.attack_type := None;
     AttackEvents.severity := low; AttackEvents.anomaly_score := 0.25%Q |}.

Definition pending_events : list AttackEvents.row :=
  [pending_event 8 100 "192.0.2.44"; pending_event 9 200 "192.0.2.44";
   sample_event 10 300 "192.0.2.44" high].


Definition aged_row : row :=
  {| hour := 86400000000; source_ip := "203.0.113.7"; attack_count := 2;
     unique_endpoints := 1; attack_types := 1;
     avg_anomaly_score := Some (100 # 200);
     max_severity := Some medium;
     attack_types_list := [Some sql_injection] |}.

End AttackStatistics.

(** ** The view [threat_intelligence] (init.sql 111-131) *)

(** The values of a list that are distinct under [eqb], each at its first
    occurrence: the keys of a GROUP BY whose columns are compared by
    [eqb]. *)
Fixpoint distinct_by {A : Type} (eqb : A -> A -> bool) (l : list A) : list A :=
  match l with
  | [] => []
  | x :: l' => x :: filter (fun y => eqb x y = false) (distinct_by eqb l')
  end.

(** [MAX(...)] of timestamps: NULL over no rows. *)
Definition sql_max_timestamp (l : list Z) : option Z :=
  match l with
  | [] => None
  | t :: l' => Some (fold_left Z.max l' t)
  end.

Module ThreatIntelligence.

Record row : Type := {
  source_ip : string;
  first_seen : Z;
  last_seen : Z;
  total_requests : Z;
  unique_endpoints : Z;
  risk_score : Q;
  threat_level : string;
  is_bot : bool;
  attack_types : list (option attack_type);
  countries : list (option string);
  critical_attacks : Z;
  high_attacks : Z;
  last_attack_time : option Z
}.

(** The events of one source. *)
Definition events_of (ip : string) (attack_events : list AttackEvents.row)
  : list AttackEvents.row :=
  filter (fun ae => ip = AttackEvents.source_ip ae) attack_events.

(** [ON af.source_ip = ae.source_ip]. *)
Definition matching (af : AttackerFingerprints.row)
  (attack_events : list AttackEvents.row) : list AttackEvents.row :=
  filter (fun ae => AttackerFingerprints.source_ip af = AttackEvents.source_ip ae)
         attack_events.

(** [attacker_fingerprints af LEFT JOIN attack_events ae ON ...]: one
    joined row per matching event, and one row with NULLs for [ae] when no
    event matches. *)
Definition left_join (af : AttackerFingerprints.row)
  (attack_events : list AttackEvents.row)
  : list (AttackerFingerprints.row * option AttackEvents.row) :=
  match matching af attack_events with
  | [] => [(af, None)]
  | events => (fun ae => (af, Some ae)) <$> events
  end.

(** [GROUP BY af.id, af.source_ip, af.first_seen, af.last_seen,
     af.total_requests, af.unique_endpoints, af.risk_score,
     af.threat_level, af.is_bot]: two joined rows fall in one group when
    their fingerprints agree on these nine columns, [risk_score] as a
    number. *)
Definition same_group (a b : AttackerFingerprints.row) : bool :=
  (AttackerFingerprints.id a =? AttackerFingerprints.id b)
  && bool_decide (AttackerFingerprints.source_ip a
                  = AttackerFingerprints.source_ip b)
  && (AttackerFingerprints.first_seen a =? AttackerFingerprints.first_seen b)
  && (AttackerFingerprints.last_seen a =? AttackerFingerprints.last_seen b)
  && (AttackerFingerprints.total_requests a
      =? AttackerFingerprints.total_requests b)
  && (AttackerFingerprints.unique_endpoints a
      =? AttackerFingerprints.unique_endpoints b)
  && Qeq_bool (AttackerFingerprints.risk_score a)
              (AttackerFingerprints.risk_score b)
  && bool_decide (AttackerFingerprints.threat_level a
                  = AttackerFingerprints.threat_level b)
  && bool_decide (AttackerFingerprints.is_bot a = AttackerFingerprints.is_bot b).

(** The joined rows of the group of [af]. *)
Definition group_rows (af : AttackerFingerprints.row)
  (joined : list (AttackerFingerprints.row * option AttackEvents.row))
  : list (option AttackEvents.row) :=
  snd <$> filter (fun j => same_group af (fst j) = true) joined.

(** [COUNT(CASE WHEN ae.severity = s THEN 1 END)]: the joined rows whose
    event has severity [s]; a row without event yields NULL and is not
    counted. *)
Definition count_severity (s : severity_level)
  (g : list (option AttackEvents.row)) : Z :=
  sql_count (filter (fun ae => AttackEvents.severity <$> ae = Some s) g).

(** The select list, evaluated over the joined rows of one group.
    [array_agg(DISTINCT ...)] keeps a NULL like any other value; the order
    of the elements of the arrays is not modelled. *)
Definition aggregate (af : AttackerFingerprints.row)
  (g : list (option AttackEvents.row)) : row :=
  {| source_ip := AttackerFingerprints.source_ip af;
     first_seen := AttackerFingerprints.first_seen af;
     last_seen := AttackerFingerprints.last_seen af;
     total_requests := AttackerFingerprints.total_requests af;
     unique_endpoints := AttackerFingerprints.unique_endpoints af;
     risk_score := AttackerFingerprints.risk_score af;
     threat_level := AttackerFingerprints.threat_level af;
     is_bot := AttackerFingerprints.is_bot af;
     attack_types :=
       remove_dups ((fun ae : option AttackEvents.row =>
                       ae ≫= AttackEvents.attack_type) <$> g);
     countries :=
       remove_dups ((fun ae : option AttackEvents.row =>
                       ae ≫= AttackEvents.country) <$> g);
     critical_attacks := count_severity critical g;
     high_attacks := count_severity high g;
     last_attack_time :=
       sql_max_timestamp
         (omap (fun ae : option AttackEvents.row =>
                  AttackEvents.timestamp <$> ae) g) |}.

(** [ORDER BY af.risk_score DESC, af.last_seen DESC]. *)
Definition listed_before (r1 r2 : row) : bool :=
  (if Qlt_le_dec (risk_score r2) (risk_score r1) then true else false) ||
  (Qeq_bool (risk_score r1) (risk_score r2) && (last_seen r2 <=? last_seen r1)).

Definition threat_intelligence
  (attacker_fingerprints : list AttackerFingerprints.row)
  (attack_events : list AttackEvents.row) : list row :=
  let joined := attacker_fingerprints ≫= (fun af => left_join af attack_events) in
  let keys := distinct_by same_group (fst <$> joined) in
  order_by listed_before
    ((fun af => aggregate af (group_rows af joined)) <$> keys).

(** Sample fingerprints: one whose source has events in
    [AttackStatistics.sample_events] and one whose source has none. *)
Definition sample_fingerprint (n : Z) (ip : string) (risk : Q)
  : AttackerFingerprints.row :=
  {| AttackerFingerprints.id := n; AttackerFingerprints.source_ip := ip;
     AttackerFingerprints.first_seen := 50; AttackerFingerprints.last_seen := 450;
     AttackerFingerprints.total_requests := 3;
     AttackerFingerprints.unique_endpoints := 1;
     AttackerFingerprints.risk_score := risk;
     AttackerFingerprints.threat_level := "high";
     AttackerFingerprints.is_bot := true |}.

Definition sample_fingerprints : list AttackerFingerprints.row :=
  [sample_fingerprint 1 "203.0.113.7" 68; sample_fingerprint 2 "192.0.2.9" 10].

End ThreatIntelligence.

(** ** The view [real_time_alerts] (init.sql 134-152) *)

Module RealTimeAlerts.

Record row : Type := {
  id : Z;
  alert_id : string;
  timestamp : Z;
  alert_type : string;
  severity : severity_level;
  title : string;
  description : string;
  source_ip : string;
  affected_endpoint : string;
  confidence : Q;
  status : alert_status;
  attack_type : option attack_type;
  anomaly_score : option Q
}.

(** [security_alerts sa LEFT JOIN attack_events ae
     ON ae.id = ANY(sa.attack_event_ids)]: one joined row per matching
    event, and one row with NULLs for [ae] when no event matches. *)
Definition left_join (sa : SecurityAlerts.row)
  (attack_events : list AttackEvents.row)
  : list (SecurityAlerts.row * option AttackEvents.row) :=
  match filter (fun ae => AttackEvents.id ae ∈ SecurityAlerts.attack_event_ids sa)
               attack_events with
  | [] => [(sa, None)]
  | matching => (fun ae => (sa, Some ae)) <$> matching
  end.

(** The contributing events of an alert that [attack_events] holds: the
    events the join condition matches. *)
Definition matching (sa : SecurityAlerts.row)
  (attack_events : list AttackEvents.row) : list AttackEvents.row :=
  filter (fun ae => AttackEvents.id ae ∈ SecurityAlerts.attack_event_ids sa)
         attack_events.

(** [WHERE sa.status IN ('open', 'investigating')]. *)
Definition selected (j : SecurityAlerts.row * option AttackEvents.row) : Prop :=
  SecurityAlerts.status (fst j) ∈ [open; investigating].

#[global] Instance selected_dec j : Decision (selected j).
Proof. unfold selected. apply _. Defined.

(** The select list. *)
Definition project (j : SecurityAlerts.row * option AttackEvents.row) : row :=
  let (sa, ae) := j in
  {| id := SecurityAlerts.id sa;
     alert_id := SecurityAlerts.alert_id sa;
     timestamp := SecurityAlerts.timestamp sa;
     alert_type := SecurityAlerts.alert_type sa;
     severity := SecurityAlerts.severity sa;
     title := SecurityAlerts.title sa;
     description := SecurityAlerts.description sa;
     source_ip := SecurityAlerts.source_ip sa;
     affected_endpoint := SecurityAlerts.affected_endpoint sa;
     confidence := SecurityAlerts.confidence sa;
     status := SecurityAlerts.status sa;
     attack_type := ae ≫= AttackEvents.attack_type;
     anomaly_score := AttackEvents.anomaly_score <$> ae |}.

(** [ORDER BY sa.timestamp DESC]. *)
Definition listed_before (r1 r2 : row) : bool := timestamp r2 <=? timestamp r1.

Definition real_time_alerts (security_alerts : list SecurityAlerts.row)
  (attack_events : list AttackEvents.row) : list row :=
  let joined := security_alerts ≫= (fun sa => left_join sa attack_events) in
  order_by listed_before (project <$> filter selected joined).

(** Sample alerts: an open one with two contributing events and a
    resolved one. *)
Definition sample_alert (n ts : Z) (st : alert_status) (evs : list Z)
  : SecurityAlerts.row :=
  {| SecurityAlerts.id := n; SecurityAlerts.alert_id := "alert";
     SecurityAlerts.timestamp := ts;
     SecurityAlerts.alert_type := "critical_severity";
     SecurityAlerts.severity := critical; SecurityAlerts.title := "";
     SecurityAlerts.description := "";
     SecurityAlerts.source_ip := "203.0.113.7";
     SecurityAlerts.affected_endpoint := "/api/honeypots/sql";
     SecurityAlerts.confidence := 1; SecurityAlerts.status := st;
     SecurityAlerts.attack_event_ids := evs |}.

Definition sample_alerts : list SecurityAlerts.row :=
  [sample_alert 1 250 open [2; 4]; sample_alert 2 150 resolved [1]].

Definition sample_row : row :=
  project (sample_alert 1 250 open [2; 4],
           Some (AttackStatistics.sample_event 2 200 "203.0.113.7" critical)).

End RealTimeAlerts.

(** ** The trigger function [update_last_seen] (init.sql 42-48) *)

Module LastSeen.

Import AttackerFingerprints.

(** [NEW.last_seen = NOW(); RETURN NEW], with [now] the reading of [NOW()]
    in the transaction that fires the trigger. *)
Definition update_last_seen (now : Z) (NEW : row) : row :=
  {| id := id NEW;
     source_ip := source_ip NEW;
     first_seen := first_seen NEW;
     last_seen := now;
     total_requests := total_requests NEW;
     unique_endpoints := unique_endpoints NEW;
     risk_score := risk_score NEW;
     threat_level := threat_level NEW;
     is_bot := is_bot NEW |}.

(** Modelled from the spec: one update of a profile row (section 4.5,
    "update last-seen"); the CREATE TRIGGER statement that attaches
    [update_last_seen] is not in [init.sql].  The statement's SET clause
    proposes the new row and the trigger, fired before the row is written,
    stamps it with the reading [op_now] of [NOW()]. *)
Record update_op : Type := {
  op_now : Z;
  op_set : row -> row
}.

(** The row written by one update. *)
Definition apply_update (old : row) (op : update_op) : row :=
  update_last_seen (op_now op) (op_set op old).

(** The row as stored after each update of a sequence, oldest first,
    starting with the row before the first update. *)
Fixpoint history (p : row) (ops : list update_op) : list row :=
  match ops with
  | [] => [p]
  | op :: ops' => p :: history (apply_update p op) ops'
  end.

(** A sample profile and SET clause. *)
Definition sample_profile : row :=
  {| id := 1; source_ip := "203.0.113.7"; first_seen := 40; last_seen := 100;
     total_requests := 3; unique_endpoints := 2; risk_score := 34%Q;
     threat_level := "medium"; is_bot := false |}.

Definition count_request (r : row) : row :=
  {| id := id r; source_ip := source_ip r; first_seen := first_seen r;
     last_seen := last_seen r; total_requests := total_requests r + 1;
     unique_endpoints := unique_endpoints r; risk_score := risk_score r;
     threat_level := threat_level r; is_bot := is_bot r |}.

(** An update whose transaction read the clock at 50, before the stored
    last-seen of [sample_profile], and two whose readings follow it. *)
Definition earlier_update : update_op :=
  {| op_now := 50; op_set := count_request |}.

Definition later_updates : list update_op :=
  [{| op_now := 120; op_set := count_request |};
   {| op_now := 120; op_set := count_request |};
   {| op_now := 300; op_set := count_request |}].

(** A SET clause that writes last-seen itself. *)
Definition set_last_seen (x : Z) (r : row) : row :=
  {| id := id r; source_ip := source_ip r; first_seen := first_seen r;
     last_seen := x; total_requests := total_requests r;
     unique_endpoints := unique_endpoints r; risk_score := risk_score r;
     threat_level := threat_level r; is_bot := is_bot r |}.

End LastSeen.

(** ** [generate_request_id] (init.sql 51-56) *)

(** ['req_' || extract(epoch from now())::text || '_' ||
     substring(md5(random()::text) from 1 for 8)], with [epoch_text] the
    text of [extract(epoch from now())] and [random_md5] the digest
    [md5(random()::text)]. *)
Definition generate_request_id (epoch_text random_md5 : string) : string :=
  "req_" +:+ epoch_text +:+ "_" +:+ String.substring 0 8 random_md5.

(** ** The event normalizer (specification, section 4.1) *)

Module Normalizer.

(** Modelled from the spec: the raw capture handed to the normalizer
    (method, path, headers, body bytes, remote address, timestamp); the
    normalizer is not part of [init.sql].  A field that the capture lacks
    is [None]. *)
Record raw_capture : Type := {
  method : option string;
  path : option string;
  headers : option string;
  body : option string;
  remote_address : option string;
  timestamp : option Z
}.

(** Modelled from the spec: the event the normalizer produces (AttackEvent
    of section 3, before classification and scoring), with the flag that
    records a truncation. *)
Record attack_event : Type := {
  identifier : string;
  event_timestamp : Z;
  source_identity : string;
  endpoint_path : string;
  http_method : string;
  header_snapshot : string;
  payload_snapshot : string;
  truncated : bool;
  attack_type_label : option attack_type;
  severity : option severity_level
}.

Inductive outcome : Type :=
| Normalized (e : attack_event)
| ValidationError.

(** Modelled from the spec: the fixed cap on a snapshot, 8 KB. *)
Definition snapshot_cap : nat := 8 * 1024.

(** Modelled from the spec: a snapshot is cut to the cap. *)
Definition truncate (s : string) : string := String.substring 0 snapshot_cap s.

(** Modelled from the spec: truncation is recorded as a flag. *)
Definition exceeds_cap (s : string) : bool :=
  Nat.ltb snapshot_cap (String.length s).

(** Modelled from the spec: a capture is valid when its required fields
    are present. *)
Definition valid (c : raw_capture) : Prop :=
  is_Some (method c) /\ is_Some (path c) /\ is_Some (headers c) /\
  is_Some (body c) /\ is_Some (remote_address c) /\ is_Some (timestamp c).

(** Modelled from the spec: [Normalizer.normalize].  It rejects a capture
    that lacks a required field, cuts the header and body snapshots to the
    cap and records that it did, and gives the event the capture's
    timestamp and an identifier generated at ingestion, here by
    [generate_request_id] from the clock and the random digest. *)
Definition normalize (epoch_text random_md5 : string) (c : raw_capture)
  : outcome :=
  match method c, path c, headers c, body c, remote_address c, timestamp c with
  | Some m, Some p, Some h, Some b, Some r, Some t =>
      Normalized
        {| identifier := generate_request_id epoch_text random_md5;
           event_timestamp := t;
           source_identity := r;
           endpoint_path := p;
           http_method := m;
           header_snapshot := truncate h;
           payload_snapshot := truncate b;
           truncated := exceeds_cap h || exceeds_cap b;
           attack_type_label := None;
           severity := None |}
  | _, _, _, _, _, _ => ValidationError
  end.

(** A sample capture. *)
Definition sample_capture : raw_capture :=
  {| method := Some "GET"; path := Some "/api/honeypots/sql";
     headers := Some "User-Agent: sqlmap/1.7";
     body := Some "1 UNION SELECT * FROM users";
     remote_address := Some "203.0.113.7"; timestamp := Some 1700000000 |}.

(** A capture whose body is 808 characters longer than the cap. *)
Fixpoint repeated (n : nat) (c : ascii) : string :=
  match n with
  | O => EmptyString
  | S n' => String c (repeated n' c)
  end.

Definition large_capture : raw_capture :=
  {| method := Some "POST"; path := Some "/api/honeypots/upload";
     headers := Some "Content-Type: text/plain";
     body := Some (repeated (snapshot_cap + 808) "A");
     remote_address := Some "203.0.113.7"; timestamp := Some 1700000060 |}.

(** A capture without remote address. *)
Definition malformed_capture : raw_capture :=
  {| method := Some "GET"; path := Some "/"; headers := Some "";
     body := Some ""; remote_address := None; timestamp := Some 1700000000 |}.

End Normalizer.

(** ** The alert engine (specification, sections 3 and 4.7) *)

Module AlertEngine.

(** Modelled from the spec: SecurityAlert of section 3.  [init.sql]
    declares the [alert_status] type only; the code that creates alerts and
    changes their status is not part of it. *)
Record alert : Type := {
  identifier : Z;
  created : Z;
  alert_type : string;
  severity : severity_level;
  confidence : Q;
  source_identity : string;
  endpoint : string;
  event_ids : list Z;
  status : alert_status
}.

(** The alert [a] with its status replaced by [s]. *)
Definition with_status (a : alert) (s : alert_status) : alert :=
  {| identifier := identifier a; created := created a;
     alert_type := alert_type a; severity := severity a;
     confidence := confidence a; source_identity := source_identity a;
     endpoint := endpoint a; event_ids := event_ids a; status := s |}.

(** Modelled from the spec: the status transitions of an alert,
    open -> investigating -> {resolved, false_positive}. *)
Definition permitted (from to : alert_status) : bool :=
  match from, to with
  | open, investigating => true
  | investigating, resolved => true
  | investigating, false_positive => true
  | _, _ => false
  end.

(** Modelled from the spec: an operation asks for a status; the alert
    takes it when the transition is permitted and keeps its status
    otherwise. *)
Definition set_status (a : alert) (to : alert_status) : alert :=
  if permitted (status a) to then with_status a to else a.

(** Modelled from the spec: a sequence of operations asked of one alert. *)
Definition apply_operations (a : alert) (ops : list alert_status) : alert :=
  fold_left set_status ops a.

(** A sample alert under investigation, and operations asked of it. *)
Definition sample_alert : alert :=
  {| identifier := 7; created := 250; alert_type := "critical_severity";
     severity := critical; confidence := 1; source_identity := "203.0.113.7";
     endpoint := "/api/honeypots/sql"; event_ids := [2; 4];
     status := investigating |}.

Definition sample_operations : list alert_status :=
  [open; resolved; open; investigating; false_positive].

(** Position of a status along the transitions. *)
Definition stage (s : alert_status) : Z :=
  match s with
  | open => 0
  | investigating => 1
  | resolved => 2
  | false_positive => 2
  end.

(** Modelled from the spec: the configurable risk threshold (default 70)
    and dedup window (default 15 minutes). *)
Record config : Type := {
  risk_threshold : Q;
  dedup_window : Z
}.


(** Modelled from the spec: what the engine evaluates after the aggregator
    has updated the profile: the finalized event, the profile's risk score
    before and after the update, and the type and confidence of the alert
    the event is evaluated for. *)
Record trigger : Type := {
  event : AttackEvents.row;
  risk_before : Q;
  risk_after : Q;
  for_type : string;
  with_confidence : Q
}.


(** Modelled from the spec: an alert that is open or investigating. *)
Definition active (a : alert) : Prop := status a ∈ [open; investigating].

(** Same source identity and alert type. *)
Definition same_key (src ty : string) (a : alert) : Prop :=
  source_identity a = src /\ alert_type a = ty.

(** Modelled from the spec: an open or investigating alert already exists
    for that (identity, type) within the dedup window. *)
Definition duplicates (cfg : config) (t : trigger) (a : alert) : Prop :=
  active a /\
  same_key (AttackEvents.source_ip (event t)) (for_type t) a /\
  Z.abs (AttackEvents.timestamp (event t) - created a) < dedup_window cfg.

#[global] Instance duplicates_dec cfg t a : Decision (duplicates cfg t a).
Proof. unfold duplicates, active, same_key. apply _. Defined.








(** The alerts of one (identity, type) created in the bucket that starts at
    [start] and is one dedup window long. *)
Definition in_bucket (cfg : config) (src ty : string) (start : Z) (a : alert)
  : Prop :=
  same_key src ty a /\ start <= created a < start + dedup_window cfg.

#[global] Instance in_bucket_dec cfg src ty start a :
  Decision (in_bucket cfg src ty start a).
Proof. unfold in_bucket, same_key. apply _. Defined.

(** The alerts of that bucket that are open or investigating. *)
Definition active_in_bucket (cfg : config) (src ty : string) (start : Z)
  (a : alert) : Prop :=
  in_bucket cfg src ty start a /\ active a.

#[global] Instance active_in_bucket_dec cfg src ty start a :
  Decision (active_in_bucket cfg src ty start a).
Proof. unfold active_in_bucket, active. apply _. Defined.

(** The open alerts of one (identity, type). *)
Definition open_for (src ty : string) (a : alert) : Prop :=
  same_key src ty a /\ status a = open.

#[global] Instance open_for_dec src ty a : Decision (open_for src ty a).
Proof. unfold open_for, same_key. apply _. Defined.








End AlertEngine.

(** ** Creating the custom types (init.sql 15-36) *)

Module Catalog.

(** The enumerated types of a database: the labels of each type, by
    name. *)
Inductive ddl_error : Set :=
| duplicate_object.

(** [CREATE TYPE name AS ENUM (labels)]: an error when a type of that name
    exists. *)
Definition create_type (name : string) (labels : list string)
  (types : gmap string (list string)) : ddl_error + gmap string (list string) :=
  match types !! name with
  | Some _ => inl duplicate_object
  | None => inr (<[name := labels]> types)
  end.

(** [DO $$ BEGIN CREATE TYPE ...; EXCEPTION WHEN duplicate_object THEN
    null; END $$]: the error is caught and the block does nothing. *)
Definition do_create_type (name : string) (labels : list string)
  (types : gmap string (list string)) : gmap string (list string) :=
  match create_type name labels types with
  | inl duplicate_object => types
  | inr types' => types'
  end.

Definition severity_level_enum : list string :=
  ["low"; "medium"; "high"; "critical"].

Definition attack_type_enum : list string :=
  ["sql_injection"; "xss"; "csrf"; "brute_force"; "ddos"; "port_scan";
   "vulnerability_scan"; "malware"; "phishing"; "privilege_escalation";
   "data_exfiltration"; "unknown"].

Definition alert_status_enum : list string :=
  ["open"; "investigating"; "resolved"; "false_positive"].

(** The three blocks of lines 16-36, in order. *)
Definition create_custom_types (types : gmap string (list string))
  : gmap string (list string) :=
  let types := do_create_type "severity_level" severity_level_enum types in
  let types := do_create_type "attack_type" attack_type_enum types in
  do_create_type "alert_status" alert_status_enum types.

(** A database that already has a [severity_level] with other labels. *)
Definition drifted : gmap string (list string) :=
  {[ "severity_level" := ["info"; "warning"; "error"] ]}.

End Catalog.

(** ** The dashboard components (src/frontend/src/components) *)

Module Dashboard.

(** A JavaScript [number] as far as comparison with a numeric literal
    goes: a finite value, carried as an exact rational, NaN, or one of the
    two infinities. *)
Inductive number : Type :=
| Finite (q : Q)
| NaN
| Infinity
| NegInfinity.

(** [x >= c] for a literal [c]: false on NaN. *)
Definition ge (x : number) (c : Q) : bool :=
  match x with
  | Finite q => Qle_bool c q
  | NaN => false
  | Infinity => true
  | NegInfinity => false
  end.

(** [getSeverityColor] (AttackMap.tsx 38-46, RecentAttacks.tsx 100-108,
    TopAttackers.tsx 95-103; the three copies are the same text). *)
Definition getSeverityColor (severity : string) : string :=
  if String.eqb severity "critical" then "error"
  else if String.eqb severity "high" then "warning"
  else if String.eqb severity "medium" then "info"
  else if String.eqb severity "low" then "success"
  else "default".

(** [getRiskColor] (TopAttackers.tsx 105-110). *)
Definition getRiskColor (score : number) : string :=
  if ge score 80 then "error"
  else if ge score 60 then "warning"
  else if ge score 40 then "info"
  else "success".

(** [getStatusCodeColor] (RecentAttacks.tsx 121-126). *)
Definition getStatusCodeColor (status : number) : string :=
  if ge status 500 then "error"
  else if ge status 400 then "warning"
  else if ge status 300 then "info"
  else "success".

(** The [backgroundColor] of an attack marker (AttackMap.tsx 118-120). *)
Definition markerColor (severity : string) : string :=
  if String.eqb (getSeverityColor severity) "error" then "#ef4444"
  else if String.eqb (getSeverityColor severity) "warning" then "#f59e0b"
  else if String.eqb (getSeverityColor severity) "info" then "#3b82f6"
  else "#10b981".

(** The user agent as [RecentAttacks] shows it (RecentAttacks.tsx
    217-220): [userAgent.length > 50 ? userAgent.substring(0, 50) + '...'
    : userAgent].  A string is carried as its sequence of code units. *)
Definition userAgentLabel (userAgent : string) : string :=
  if Nat.ltb 50 (String.length userAgent)
  then String.substring 0 50 userAgent +:+ "..."
  else userAgent.

(** [s.replace('_', ' ')] (RecentAttacks.tsx 197, TopAttackers.tsx 201):
    with a string as pattern, [replace] changes the first occurrence
    only. *)
Fixpoint replace_underscore (s : string) : string :=
  match s with
  | EmptyString => EmptyString
  | String c s' =>
      if Ascii.eqb c "_"%char then String " "%char s'
      else String c (replace_underscore s')
  end.

(** The number of occurrences of a character. *)
Fixpoint occurrences (c : Ascii.ascii) (s : string) : nat :=
  match s with
  | EmptyString => 0
  | String c' s' => (if Ascii.eqb c' c then 1 else 0) + occurrences c s'
  end.

(** The label of a severity in the enumerated type of [init.sql]. *)
Definition severity_label (s : severity_level) : string :=
  match s with
  | low => "low"
  | medium => "medium"
  | high => "high"
  | critical => "critical"
  end.

(** How alarming a palette colour is. *)
Definition alarm_level (color : string) : Z :=
  if String.eqb color "error" then 3
  else if String.eqb color "warning" then 2
  else if String.eqb color "info" then 1
  else 0.

End Dashboard.

(** ** Sums and enumerations used in the statements *)

(** [SUM(...)] of integer values. *)
Definition sql_sum (l : list Z) : Z := foldr Z.add 0 l.


(** * Properties *)

(** ** Risk score *)

Section RiskScoreFacts.

Import RiskScore.
Local Open Scope Q_scope.

Lemma int4mul_ok (a b : Z) :
  in_int4 (a * b) = true -> int4mul a b = Ok (a * b)%Z.
Proof. unfold int4mul. now intros ->. Qed.

Lemma int4mul_inv (a b v : Z) :
  int4mul a b = Ok v -> v = (a * b)%Z /\ in_int4 (a * b) = true.
Proof.
  unfold int4mul. destruct (in_int4 (a * b)); [|discriminate].
  intros [= <-]. auto.
Qed.

Lemma in_int4_times_10 (a : Z) :
  in_int4 (a * 10) = true <-> (-214748364 <= a <= 214748364)%Z.
Proof.
  unfold in_int4, int4_min, int4_max.
  rewrite andb_true_iff, !Z.leb_le. change (2 ^ 31)%Z with 2147483648%Z. lia.
Qed.

Lemma in_int4_times_2 (u : Z) :
  in_int4 (u * 2) = true <-> (-1073741824 <= u <= 1073741823)%Z.
Proof.
  unfold in_int4, int4_min, int4_max.
  rewrite andb_true_iff, !Z.leb_le. change (2 ^ 31)%Z with 2147483648%Z. lia.
Qed.

Lemma counts_in_range_int4 (a u : Z) :
  counts_in_range a u <-> in_int4 (a * 10) = true /\ in_int4 (u * 2) = true.
Proof. unfold counts_in_range. now rewrite in_int4_times_10, in_int4_times_2. Qed.

Lemma base_score_overflow (a u : Z) (d : Q) :
  in_int4 (a * 10) = false \/ in_int4 (u * 2) = false ->
  base_score a u d = Raise integer_out_of_range.
Proof.
  unfold base_score, int4mul. intros [-> | ->]; [reflexivity|].
  destruct (in_int4 (a * 10)); reflexivity.
Qed.

Lemma base_score_ok (a u : Z) (d : Q) :
  in_int4 (a * 10) = true -> in_int4 (u * 2) = true ->
  base_score a u d
  = Ok (if Qlt_le_dec 3600 d
        then (inject_Z (Z.min (a * 10) 50) + inject_Z (u * 2)) * 1.2
        else inject_Z (Z.min (a * 10) 50) + inject_Z (u * 2)).
Proof.
  intros Ha Hu. unfold base_score.
  rewrite (int4mul_ok _ _ Ha), (int4mul_ok _ _ Hu). reflexivity.
Qed.

Lemma base_score_inv (a u : Z) (d b : Q) :
  base_score a u d = Ok b ->
  in_int4 (a * 10) = true /\ in_int4 (u * 2) = true /\
  b = (if Qlt_le_dec 3600 d
       then (inject_Z (Z.min (a * 10) 50) + inject_Z (u * 2)) * 1.2
       else inject_Z (Z.min (a * 10) 50) + inject_Z (u * 2)).
Proof.
  unfold base_score, int4mul.
  destruct (in_int4 (a * 10)); [|discriminate]. cbn.
  destruct (in_int4 (u * 2)); [|discriminate]. cbn.
  intros [= <-]. auto.
Qed.

Lemma base_score_raises (a u : Z) (d : Q) (e : sql_error) :
  base_score a u d = Raise e ->
  e = integer_out_of_range /\
  (in_int4 (a * 10) = false \/ in_int4 (u * 2) = false).
Proof.
  unfold base_score, int4mul.
  destruct (in_int4 (a * 10)); cbn; [|intros [= <-]; auto].
  destruct (in_int4 (u * 2)); cbn; [discriminate | intros [= <-]; auto].
Qed.

Lemma calculate_risk_score_inv (a u : Z) (d : Q) sw (s : Q) :
  calculate_risk_score a u d sw = Ok s ->
  exists b m, base_score a u d = Ok b /\ severity_multiplier sw = Ok m /\
              s = Qmin (b * m) 100.0.
Proof.
  unfold calculate_risk_score. destruct (base_score a u d) as [b|e]; [|discriminate].
  cbn. destruct (severity_multiplier sw) as [m|e]; [|discriminate].
  cbn. intros [= <-]. eauto.
Qed.

Lemma calculate_risk_score_ok (a u : Z) (d : Q) sw (b m : Q) :
  base_score a u d = Ok b -> severity_multiplier sw = Ok m ->
  calculate_risk_score a u d sw = Ok (Qmin (b * m) 100.0).
Proof. unfold calculate_risk_score. now intros -> ->. Qed.

(** The errors of the casts. *)
Lemma float8_round_raises (x : Q) (e : sql_error) :
  float8_round x = Raise e -> e = double_precision_out_of_range.
Proof.
  unfold float8_round.
  destruct (Qeq_bool x 0); [discriminate|].
  destruct (Qle_bool (Qabs x) float8_least_half); [congruence|].
  destruct (Qle_bool float8_overflow (Qabs x)); [congruence | discriminate].
Qed.

Lemma float8in_raises (num : string) (e : sql_error) :
  float8in num = Raise e -> e <> integer_out_of_range.
Proof.
  unfold float8in. destruct (strtod (skip_spaces num)) as [[v rest]|];
    [|intros [= <-]; discriminate].
  destruct v as [x|neg|]; cbn [bind].
  - destruct (float8_round x) as [val|e'] eqn:Hx; cbn [bind].
    + destruct (skip_spaces rest); [discriminate | intros [= <-]; discriminate].
    + intros [= <-]. rewrite (float8_round_raises _ _ Hx). discriminate.
  - destruct (skip_spaces rest); [discriminate | intros [= <-]; discriminate].
  - destruct (skip_spaces rest); [discriminate | intros [= <-]; discriminate].
Qed.

Lemma jsonb_field_as_float_raises (j : jsonb) (key : string) (e : sql_error) :
  jsonb_field_as_float j key = Raise e -> e <> integer_out_of_range.
Proof.
  unfold jsonb_field_as_float.
  destruct (jsonb_object_field j key) as [[|b|x|s|l|m]|];
    try discriminate; try (intros [= <-]; discriminate).
  - destruct (float8_round x) as [val|e'] eqn:Hx; cbn [bind]; [discriminate|].
    intros [= <-]. rewrite (float8_round_raises _ _ Hx). discriminate.
  - destruct (float8in s) as [val|e'] eqn:Hs; cbn [bind]; [discriminate|].
    intros [= <-]. exact (float8in_raises _ _ Hs).
Qed.

Lemma severity_present_raises sw (key : string) (e : sql_error) :
  severity_present sw key = Raise e -> e <> integer_out_of_range.
Proof.
  destruct sw as [w|]; cbn; [|discriminate]. unfold weight_positive.
  destruct (jsonb_field_as_float w key) as [x|e'] eqn:Hx; cbn [bind];
    [discriminate|].
  intros [= <-]. exact (jsonb_field_as_float_raises _ _ _ Hx).
Qed.

(** The multiplier that the two tests select. *)
Lemma severity_multiplier_cases sw :
  match severity_present sw "high", severity_present sw "critical" with
  | Ok h, Ok c =>
      exists m, severity_multiplier sw = Ok m /\
                m == match h, c with
                     | false, false => 1.0
                     | true, false => 1.5
                     | false, true => 2.0
                     | true, true => 1.5 * 2.0
                     end
  | Ok _, Raise e => severity_multiplier sw = Raise e
  | Raise e, _ => severity_multiplier sw = Raise e
  end.
Proof.
  destruct sw as [w|]; cbn [severity_present severity_multiplier].
  - destruct (weight_positive w "high") as [[]|e]; cbn [bind];
      [| |reflexivity];
      (destruct (weight_positive w "critical") as [[]|e]; cbn [bind];
       [| |reflexivity]); eexists; (split; [reflexivity|lra]).
  - eexists. split; [reflexivity|lra].
Qed.

Lemma severity_multiplier_inv sw (m : Q) :
  severity_multiplier sw = Ok m ->
  exists h c, severity_present sw "high" = Ok h /\
              severity_present sw "critical" = Ok c /\
              m == match h, c with
                   | false, false => 1.0
                   | true, false => 1.5
                   | false, true => 2.0
                   | true, true => 1.5 * 2.0
                   end.
Proof.
  intros Hm. pose proof (severity_multiplier_cases sw) as H.
  destruct (severity_present sw "high") as [h|e]; [|congruence].
  destruct (severity_present sw "critical") as [c|e]; [|congruence].
  destruct H as (m' & Hm' & Heq). exists h, c.
  rewrite Hm in Hm'. injection Hm' as <-. auto.
Qed.

Lemma severity_multiplier_raises sw (e : sql_error) :
  severity_multiplier sw = Raise e -> e <> integer_out_of_range.
Proof.
  intros He. pose proof (severity_multiplier_cases sw) as H.
  destruct (severity_present sw "high") as [h|e1] eqn:Hh.
  - destruct (severity_present sw "critical") as [c|e2] eqn:Hc.
    + destruct H as (m & Hm & _). congruence.
    + rewrite He in H. injection H as ->. exact (severity_present_raises _ _ _ Hc).
  - rewrite He in H. injection H as ->. exact (severity_present_raises _ _ _ Hh).
Qed.

Lemma severity_multiplier_pos sw (m : Q) : severity_multiplier sw = Ok m -> 0 < m.
Proof.
  intros H. apply severity_multiplier_inv in H as (h & c & _ & _ & ->).
  destruct h, c; lra.
Qed.

Lemma severity_multiplier_mono sw sw' (m m' : Q) :
  severity_included sw sw' ->
  severity_multiplier sw = Ok m -> severity_multiplier sw' = Ok m' -> m <= m'.
Proof.
  intros [Hh Hc] H H'.
  apply severity_multiplier_inv in H as (h & c & Hh1 & Hc1 & ->).
  apply severity_multiplier_inv in H' as (h' & c' & Hh2 & Hc2 & ->).
  destruct h, c, h', c'; try lra;
    try (specialize (Hh Hh1); congruence); try (specialize (Hc Hc1); congruence).
Qed.

Lemma base_score_mono (a a' u u' : Z) (d b b' : Q) :
  (a <= a')%Z -> (u <= u')%Z ->
  base_score a u d = Ok b -> base_score a' u' d = Ok b' -> b <= b'.
Proof.
  intros Ha Hu H H'.
  apply base_score_inv in H as (_ & _ & ->).
  apply base_score_inv in H' as (_ & _ & ->).
  assert (Hz : (Z.min (a * 10) 50 + u * 2 <= Z.min (a' * 10) 50 + u' * 2)%Z) by lia.
  rewrite Zle_Qle, !inject_Z_plus in Hz.
  destruct (Qlt_le_dec 3600 d); lra.
Qed.

Lemma base_score_sign (a u : Z) (d b : Q) :
  base_score a u d = Ok b ->
  (0 <= b <-> (0 <= Z.min (a * 10) 50 + u * 2)%Z).
Proof.
  intros H. apply base_score_inv in H as (_ & _ & ->).
  rewrite Zle_Qle, inject_Z_plus. change (inject_Z 0) with 0.
  destruct (Qlt_le_dec 3600 d); split; intros; lra.
Qed.

Lemma weight_positive_insert_ne (members : gmap string jsonb)
  (key k : string) (v : jsonb) :
  key <> k ->
  weight_positive (jobject (<[key := v]> members)) k
  = weight_positive (jobject members) k.
Proof.
  intros Hne. unfold weight_positive, jsonb_field_as_float, jsonb_object_field.
  rewrite lookup_insert_ne by exact Hne. reflexivity.
Qed.

Lemma float8_round_fits (x : Q) :
  float8_least_half < x -> x < float8_overflow ->
  float8_round x = Ok (float8_finite x).
Proof.
  intros Hlo Hhi. unfold float8_round.
  assert (H0 : 0 < x).
  { eapply Qlt_trans; [|exact Hlo]. reflexivity. }
  assert (Habs : Qabs x == x) by (apply Qabs_pos; lra).
  destruct (Qeq_bool x 0) eqn:E0.
  { apply Qeq_bool_iff in E0. lra. }
  destruct (Qle_bool (Qabs x) float8_least_half) eqn:E1.
  { apply Qle_bool_iff in E1. rewrite Habs in E1. lra. }
  destruct (Qle_bool float8_overflow (Qabs x)) eqn:E2.
  { apply Qle_bool_iff in E2. rewrite Habs in E2. lra. }
  reflexivity.
Qed.

Lemma weight_positive_number (members : gmap string jsonb) (key : string)
  (x : Q) :
  float8_least_half < x -> x < float8_overflow ->
  weight_positive (jobject (<[key := jnumber x]> members)) key = Ok true.
Proof.
  intros Hlo Hhi. unfold weight_positive, jsonb_field_as_float, jsonb_object_field.
  rewrite lookup_insert_eq, (float8_round_fits x Hlo Hhi). cbn.
  assert (H0 : 0 < x).
  { eapply Qlt_trans; [|exact Hlo]. reflexivity. }
  destruct (Qlt_le_dec 0 x); [reflexivity | lra].
Qed.





Lemma spec_running_total_base (a u : Z) (d : Q) :
  (if Qlt_le_dec 3600 d
   then (inject_Z (Z.min (a * 10) 50) + inject_Z (u * 2)) * 1.2
   else inject_Z (Z.min (a * 10) 50) + inject_Z (u * 2))
  == spec_running_total a u d.
Proof.
  unfold spec_running_total.
  assert (Hmin : inject_Z (Z.min (a * 10) 50) == Qmin (inject_Z a * 10) 50).
  { destruct (Z.min_spec (a * 10) 50) as [[Hlt ->]|[Hle ->]].
    - apply Z.lt_le_incl in Hlt. rewrite Zle_Qle, inject_Z_mult in Hlt.
      rewrite Q.min_l by exact Hlt. rewrite inject_Z_mult. reflexivity.
    - rewrite Zle_Qle, inject_Z_mult in Hle.
      rewrite Q.min_r by exact Hle. reflexivity. }
  rewrite inject_Z_mult.
  destruct (Qlt_le_dec 3600 d); rewrite Hmin; reflexivity.
Qed.

(** C2 (as the code has it): when the two INTEGER products
    attack_count * 10 and unique_endpoints * 2 fit 32 bits, the running
    total that [calculate_risk_score] builds is min(attackCount * 10, 50),
    plus uniqueEndpoints * 2, times 1.2 exactly when the session duration
    exceeds 3600 seconds, and the severity multiplier is applied to that
    total afterwards; when one of the products does not fit, the function
    raises "integer out of range" and there is no total. *)
Theorem running_total_formula (a u : Z) (d : Q) :
  (in_int4 (a * 10) = true -> in_int4 (u * 2) = true ->
   exists b, base_score a u d = Ok b /\
             b == spec_running_total a u d /\
             (forall sw m, severity_multiplier sw = Ok m ->
                           calculate_risk_score a u d sw
                           = Ok (Qmin (b * m) 100.0)) /\
             (forall sw e, severity_multiplier sw = Raise e ->
                           calculate_risk_score a u d sw = Raise e)) /\
  (in_int4 (a * 10) = false \/ in_int4 (u * 2) = false ->
   base_score a u d = Raise integer_out_of_range /\
   forall sw, calculate_risk_score a u d sw = Raise integer_out_of_range).
Proof.
  split.
  - intros Ha Hu. eexists. split; [apply (base_score_ok a u d Ha Hu)|].
    split; [apply spec_running_total_base|]. split.
    + intros sw m Hm.
      exact (calculate_risk_score_ok _ _ _ _ _ _ (base_score_ok a u d Ha Hu) Hm).
    + intros sw e He. unfold calculate_risk_score.
      rewrite (base_score_ok a u d Ha Hu), He. reflexivity.
  - intros H. pose proof (base_score_overflow a u d H) as Hb.
    split; [exact Hb|]. intros sw. unfold calculate_risk_score.
    rewrite Hb. reflexivity.
Qed.

Lemma running_total_formula_witness :
  (exists b, base_score 3 4 4000 = Ok b /\ b == spec_running_total 3 4 4000) /\
  calculate_risk_score 214748365 4 4000 None = Raise integer_out_of_range.
Proof.
  destruct (running_total_formula 3 4 4000) as [Hin _].
  destruct (running_total_formula 214748365 4 4000) as [_ Hout].
  split.
  - destruct Hin as (b & Hb & Heq & _); [reflexivity | reflexivity|].
    exists b. split; [exact Hb | exact Heq].
  - apply Hout. left. reflexivity.
Defined.

(** C2, counterexample: at an attack count of 214748365 the product
    attack_count * 10 is no INTEGER; the formula of the claim gives a
    running total of 50, the function raises "integer out of range". *)
Lemma running_total_out_of_range :
  spec_running_total 214748365 0 0 == 50 /\
  base_score 214748365 0 0 = Raise integer_out_of_range /\
  calculate_risk_score 214748365 0 0 None = Raise integer_out_of_range.
Proof. repeat split; vm_compute; reflexivity. Qed.

(** C3 (as the code has it): the function returns a score exactly when
    the two INTEGER products fit and the casts of the high and of the
    critical weight succeed; a score it returns is at most 100, and it is
    at least 0 exactly when min(attackCount * 10, 50) +
    uniqueEndpoints * 2 is, in particular for non-negative counts.  There
    is no lower clip. *)
Theorem risk_score_bounds (a u : Z) (d : Q) (sw : option jsonb) :
  (forall s,
      calculate_risk_score a u d sw = Ok s ->
      s <= 100 /\
      (0 <= s <-> (0 <= Z.min (a * 10) 50 + u * 2)%Z) /\
      ((0 <= a)%Z -> (0 <= u)%Z -> 0 <= s)) /\
  ((exists s, calculate_risk_score a u d sw = Ok s) <->
   in_int4 (a * 10) = true /\ in_int4 (u * 2) = true /\
   exists h c, severity_present sw "high" = Ok h /\
               severity_present sw "critical" = Ok c).
Proof.
  split.
  - intros s Hs.
    apply calculate_risk_score_inv in Hs as (b & m & Hb & Hm & ->).
    pose proof (severity_multiplier_pos sw m Hm) as Hpos.
    pose proof (base_score_sign _ _ _ _ Hb) as Hsign.
    assert (Hiff : 0 <= Qmin (b * m) 100.0 <-> 0 <= b).
    { rewrite Q.min_glb_iff. split.
      - intros [H _]. destruct (Qlt_le_dec b 0) as [Hneg|]; [|assumption].
        exfalso. assert (b * m < 0) by nra. lra.
      - intros H. split; [nra|lra]. }
    split; [|split].
    + eapply Qle_trans; [apply Q.le_min_r|]. lra.
    + rewrite Hiff. exact Hsign.
    + intros Ha0 Hu0. apply Hiff, Hsign. lia.
  - split.
    + intros [s Hs].
      apply calculate_risk_score_inv in Hs as (b & m & Hb & Hm & _).
      apply base_score_inv in Hb as (Ha & Hu & _).
      apply severity_multiplier_inv in Hm as (h & c & Hh & Hc & _).
      eauto 6.
    + intros (Ha & Hu & h & c & Hh & Hc).
      pose proof (severity_multiplier_cases sw) as H. rewrite Hh, Hc in H.
      destruct H as (m & Hm & _). eexists.
      exact (calculate_risk_score_ok _ _ _ _ _ _ (base_score_ok a u d Ha Hu) Hm).
Qed.

Lemma risk_score_bounds_witness :
  exists s, calculate_risk_score 7 30 4000 (Some weights_critical) = Ok s /\
            s <= 100 /\ 0 <= s.
Proof.
  destruct (risk_score_bounds 7 30 4000 (Some weights_critical)) as [Hb Hret].
  destruct Hret as [_ [s Hs]].
  { split; [reflexivity|]. split; [reflexivity|].
    exists false, true. split; vm_compute; reflexivity. }
  exists s. split; [exact Hs|].
  destruct (Hb s Hs) as (Hle & _ & Hpos). split; [exact Hle|].
  apply Hpos; lia.
Defined.

(** C3, counterexample: a negative attack count gives a negative score. *)
Lemma risk_score_below_zero :
  exists s, calculate_risk_score (-1) 0 0 None = Ok s /\ s == -10 /\ ~ 0 <= s.
Proof.
  eexists. split; [vm_compute; reflexivity|]. split; [reflexivity|].
  intros H. vm_compute in H. apply H. reflexivity.
Qed.

(** C4 (as the code has it): whenever both evaluations return, the score
    does not decrease when the attack count grows, nor when the number of
    unique endpoints grows; it does not decrease when high or critical
    presence is added provided min(attackCount * 10, 50) +
    uniqueEndpoints * 2 is not negative. *)
Theorem risk_score_monotone :
  (forall (a a' u : Z) (d : Q) sw (s s' : Q),
      (a <= a')%Z ->
      calculate_risk_score a u d sw = Ok s ->
      calculate_risk_score a' u d sw = Ok s' -> s <= s') /\
  (forall (a u u' : Z) (d : Q) sw (s s' : Q),
      (u <= u')%Z ->
      calculate_risk_score a u d sw = Ok s ->
      calculate_risk_score a u' d sw = Ok s' -> s <= s') /\
  (forall (a u : Z) (d : Q) sw sw' (s s' : Q),
      (0 <= Z.min (a * 10) 50 + u * 2)%Z ->
      severity_included sw sw' ->
      calculate_risk_score a u d sw = Ok s ->
      calculate_risk_score a u d sw' = Ok s' -> s <= s').
Proof.
  split; [|split].
  - intros a a' u d sw s s' Hle H H'.
    apply calculate_risk_score_inv in H as (b & m & Hb & Hm & ->).
    apply calculate_risk_score_inv in H' as (b' & m' & Hb' & Hm' & ->).
    rewrite Hm in Hm'. injection Hm' as <-.
    pose proof (base_score_mono a a' u u d b b' Hle (Z.le_refl u) Hb Hb').
    pose proof (severity_multiplier_pos sw m Hm).
    apply Q.min_le_compat_r. nra.
  - intros a u u' d sw s s' Hle H H'.
    apply calculate_risk_score_inv in H as (b & m & Hb & Hm & ->).
    apply calculate_risk_score_inv in H' as (b' & m' & Hb' & Hm' & ->).
    rewrite Hm in Hm'. injection Hm' as <-.
    pose proof (base_score_mono a a u u' d b b' (Z.le_refl a) Hle Hb Hb').
    pose proof (severity_multiplier_pos sw m Hm).
    apply Q.min_le_compat_r. nra.
  - intros a u d sw sw' s s' Hpos Hinc H H'.
    apply calculate_risk_score_inv in H as (b & m & Hb & Hm & ->).
    apply calculate_risk_score_inv in H' as (b' & m' & Hb' & Hm' & ->).
    rewrite Hb in Hb'. injection Hb' as <-.
    apply (base_score_sign _ _ _ _ Hb) in Hpos.
    pose proof (severity_multiplier_mono sw sw' m m' Hinc Hm Hm').
    pose proof (severity_multiplier_pos sw m Hm).
    apply Q.min_le_compat_r. nra.
Qed.

Lemma severity_included_none sw : severity_included None sw.
Proof. split; discriminate. Qed.

Lemma risk_score_monotone_witness :
  exists s1 s2 s3 s4,
    calculate_risk_score 2 3 0 None = Ok s1 /\
    calculate_risk_score 4 3 0 None = Ok s2 /\
    calculate_risk_score 2 5 0 None = Ok s3 /\
    calculate_risk_score 2 3 0 (Some weights_high) = Ok s4 /\
    s1 <= s2 /\ s1 <= s3 /\ s1 <= s4.
Proof.
  destruct risk_score_monotone as (Ha & Hu & Hs).
  do 4 eexists.
  do 4 (split; [vm_compute; reflexivity|]).
  split; [|split].
  - apply (Ha 2%Z 4%Z 3%Z 0 None); [lia | vm_compute; reflexivity ..].
  - apply (Hu 2%Z 3%Z 5%Z 0 None); [lia | vm_compute; reflexivity ..].
  - apply (Hs 2%Z 3%Z 0 None (Some weights_high));
      [vm_compute; discriminate | apply severity_included_none
      | vm_compute; reflexivity ..].
Defined.

(** C4, counterexample: adding a high weight to a profile with a negative
    attack count lowers the score from -10 to -15. *)
Lemma risk_score_severity_lowers_negative_total :
  severity_included None (Some weights_high) /\
  exists s s', calculate_risk_score (-1) 0 0 None = Ok s /\
               calculate_risk_score (-1) 0 0 (Some weights_high) = Ok s' /\
               s' < s.
Proof.
  split; [split; discriminate|].
  do 2 eexists. split; [vm_compute; reflexivity|].
  split; [vm_compute; reflexivity|]. vm_compute. reflexivity.
Qed.

End RiskScoreFacts.

(** ** Query operators *)

Section OrderBy.

Context {A : Type} (before : A -> A -> bool).

Lemma elem_of_insert_ordered (x y : A) (l : list A) :
  y ∈ insert_ordered before x l <-> y = x \/ y ∈ l.
Proof.
  induction l as [|z l IH]; cbn.
  - rewrite list_elem_of_singleton, elem_of_nil. tauto.
  - destruct (before x z).
    + rewrite elem_of_cons. reflexivity.
    + rewrite !elem_of_cons, IH. tauto.
Qed.

Lemma elem_of_order_by (y : A) (l : list A) : y ∈ order_by before l <-> y ∈ l.
Proof.
  induction l as [|x l IH]; cbn.
  - reflexivity.
  - rewrite elem_of_insert_ordered, elem_of_cons.
    unfold order_by in IH. rewrite IH. reflexivity.
Qed.

End OrderBy.

(** ** Severity ordering and the running maximum *)

Section SeverityFacts.

Lemma severity_larger_comm (a b : severity_level) :
  severity_larger a b = severity_larger b a.
Proof. destruct a, b; reflexivity. Qed.

Lemma severity_larger_assoc (a b c : severity_level) :
  severity_larger (severity_larger a b) c = severity_larger a (severity_larger b c).
Proof. destruct a, b, c; reflexivity. Qed.

Lemma highest_present_nil : highest_present [] = low.
Proof. reflexivity. Qed.

Lemma highest_present_cons (s : severity_level) (l : list severity_level) :
  highest_present (s :: l) = severity_larger s (highest_present l).
Proof.
  unfold highest_present.
  rewrite !(bool_decide_ext _ _ (elem_of_cons l _ s)), !bool_decide_or.
  destruct s; cbn;
    destruct (bool_decide (critical ∈ l)), (bool_decide (high ∈ l)),
      (bool_decide (medium ∈ l)); reflexivity.
Qed.

Lemma fold_severity_larger (l : list severity_level) (s : severity_level) :
  fold_left severity_larger l s = severity_larger s (highest_present l).
Proof.
  revert s. induction l as [|x l IH]; intros s; cbn [fold_left].
  - rewrite highest_present_nil. destruct s; reflexivity.
  - rewrite IH, highest_present_cons. apply severity_larger_assoc.
Qed.

Lemma sql_max_severity_highest (l : list severity_level) :
  l <> [] -> sql_max_severity l = Some (highest_present l).
Proof.
  destruct l as [|s l]; [congruence|]. intros _. cbn [sql_max_severity].
  rewrite fold_severity_larger, highest_present_cons. reflexivity.
Qed.

End SeverityFacts.

(** ** The view [attack_statistics] *)

Section AttackStatisticsFacts.

Import AttackStatistics.

Lemma attack_statistics_row (now : Z) (events : list AttackEvents.row) (r : row) :
  r ∈ attack_statistics now events ->
  exists k, k ∈ (group_key <$> filter (recent now) events) /\
            r = aggregate k (group_rows k (filter (recent now) events)).
Proof.
  unfold attack_statistics. rewrite elem_of_order_by, list_elem_of_fmap.
  intros (k & -> & Hk). rewrite elem_of_remove_dups in Hk. eauto.
Qed.

Lemma group_rows_nonempty (k : Z * string) (events : list AttackEvents.row) :
  k ∈ (group_key <$> events) -> group_rows k events <> [].
Proof.
  rewrite list_elem_of_fmap. intros (e & -> & He) Hnil.
  assert (Hin : e ∈ group_rows (group_key e) events).
  { unfold group_rows. rewrite list_elem_of_filter. auto. }
  rewrite Hnil in Hin. now apply elem_of_nil in Hin.
Qed.

Lemma attack_statistics_has_row (now : Z) (events : list AttackEvents.row)
  (e : AttackEvents.row) :
  e ∈ events -> recent now e ->
  aggregate (group_key e) (group_rows (group_key e) (filter (recent now) events))
  ∈ attack_statistics now events.
Proof.
  intros He Hrec. unfold attack_statistics.
  rewrite elem_of_order_by, list_elem_of_fmap. exists (group_key e).
  split; [reflexivity|].
  rewrite elem_of_remove_dups, list_elem_of_fmap. exists e.
  split; [reflexivity|]. apply list_elem_of_filter. auto.
Qed.

Lemma highest_present_upper (s : severity_level) (l : list severity_level) :
  s ∈ l -> severity_le s (highest_present l) = true.
Proof.
  intros Hs. unfold highest_present.
  repeat case_bool_decide; destruct s; try reflexivity; contradiction.
Qed.

Lemma running_max_fold (events : list AttackEvents.row)
  (profiles : gmap string severity_level) (source : string) :
  fold_left Aggregator.update_max_severity events profiles !! source
  = match profiles !! source with
    | Some m =>
        Some (fold_left severity_larger
                (AttackEvents.severity <$> Aggregator.observed source events) m)
    | None =>
        sql_max_severity
          (AttackEvents.severity <$> Aggregator.observed source events)
    end.
Proof.
  revert profiles. unfold Aggregator.observed.
  induction events as [|e events IH]; intros profiles.
  - cbn. destruct (profiles !! source); reflexivity.
  - cbn [fold_left]. rewrite IH. unfold Aggregator.update_max_severity.
    rewrite filter_cons.
    destruct (decide (AttackEvents.source_ip e = source)) as [<-|Hne].
    + rewrite lookup_insert_eq, fmap_cons.
      destruct (profiles !! AttackEvents.source_ip e); reflexivity.
    + rewrite lookup_insert_ne by exact Hne. reflexivity.
Qed.

(** C5: [severity_level] is totally ordered low < medium < high <
    critical, and the maximum under this ordering of a non-empty set of
    severities is critical if any is critical, else high if any is high,
    else medium if any is medium, else low.  The running maximum severity
    that the aggregator keeps for an attacker is that maximum over the
    events observed from the attacker, and there is none before the first
    event; and every recent event has a row in [attack_statistics], whose
    [MAX(severity)] is that maximum over the events of its source in its
    hour. *)
Theorem max_severity_follows_enum_order :
  (severity_lt low medium = true /\ severity_lt medium high = true /\
   severity_lt high critical = true) /\
  (forall a b, severity_lt a b = true <-> severity_le a b = true /\ a <> b) /\
  (forall a b, severity_le a b = true \/ severity_le b a = true) /\
  (forall a b, severity_le a b = true -> severity_le b a = true -> a = b) /\
  (forall a b c, severity_le a b = true -> severity_le b c = true ->
                 severity_le a c = true) /\
  (forall l, l <> [] -> sql_max_severity l = Some (highest_present l)) /\
  (forall events source,
      let seen := Aggregator.observed source events in
      (seen = [] -> Aggregator.aggregate_all events !! source = None) /\
      (seen <> [] ->
       Aggregator.aggregate_all events !! source
       = Some (highest_present (AttackEvents.severity <$> seen)))) /\
  (forall now events e,
      e ∈ events -> recent now e ->
      exists r m,
        r ∈ attack_statistics now events /\
        hour r = date_trunc_hour (AttackEvents.timestamp e) /\
        source_ip r = AttackEvents.source_ip e /\
        max_severity r = Some m /\
        severity_le (AttackEvents.severity e) m = true) /\
  (forall now events r,
      r ∈ attack_statistics now events ->
      let g := group_rows (hour r, source_ip r) (filter (recent now) events) in
      g <> [] /\
      max_severity r = Some (highest_present (AttackEvents.severity <$> g))).
Proof.
  split; [repeat split|].
  split; [intros [] []; cbn; split; (discriminate || congruence || intuition congruence)|].
  split; [intros [] []; cbn; auto|].
  split; [intros [] []; cbn; congruence|].
  split; [intros [] [] []; cbn; congruence|].
  split; [apply sql_max_severity_highest|].
  assert (Hview : forall now events r,
             r ∈ attack_statistics now events ->
             let g := group_rows (hour r, source_ip r)
                        (filter (recent now) events) in
             g <> [] /\
             max_severity r
             = Some (highest_present (AttackEvents.severity <$> g))).
  { intros now events r Hr.
    apply attack_statistics_row in Hr as ([h ip] & Hk & ->). cbn.
    pose proof (group_rows_nonempty _ _ Hk) as Hne.
    split; [exact Hne|].
    apply sql_max_severity_highest. intros Hnil.
    apply fmap_nil_inv in Hnil. contradiction. }
  split; [|split; [|exact Hview]].
  - intros events source seen. unfold Aggregator.aggregate_all.
    rewrite running_max_fold, lookup_empty. fold seen. split.
    + intros ->. reflexivity.
    + intros Hne. apply sql_max_severity_highest. intros Hnil.
      apply fmap_nil_inv in Hnil. contradiction.
  - intros now events e He Hrec.
    pose proof (attack_statistics_has_row now events e He Hrec) as Hr.
    destruct (Hview _ _ _ Hr) as [_ Hmax].
    eexists _, _. split; [exact Hr|].
    split; [reflexivity|]. split; [reflexivity|]. split; [exact Hmax|].
    apply highest_present_upper, list_elem_of_fmap. exists e.
    split; [reflexivity|]. cbn. unfold group_rows.
    rewrite !list_elem_of_filter. auto.
Qed.

Lemma max_severity_follows_enum_order_witness :
  sql_max_severity [low; critical; high] = Some critical /\
  Aggregator.aggregate_all sample_events !! "203.0.113.7" = Some critical /\
  group_rows (0, "203.0.113.7") (filter (recent 1000) sample_events) <> [] /\
  max_severity sample_row = Some critical.
Proof.
  destruct max_severity_follows_enum_order
    as (_ & _ & _ & _ & _ & Hmax & Hrun & _ & Hview).
  split; [apply (Hmax [low; critical; high]); discriminate|].
  split.
  { destruct (Hrun sample_events "203.0.113.7") as [_ Hsome].
    rewrite Hsome; [reflexivity | discriminate]. }
  assert (Hin : sample_row ∈ attack_statistics 1000 sample_events).
  { vm_compute. apply list_elem_of_here. }
  destruct (Hview 1000 sample_events sample_row Hin) as [Hne Hr].
  split; [exact Hne | exact Hr].
Defined.

End AttackStatisticsFacts.

(** ** The view [real_time_alerts] *)

Section RealTimeAlertsFacts.

Import RealTimeAlerts.

Lemma left_join_alert (sa sa' : SecurityAlerts.row) (ae : option AttackEvents.row)
  (attack_events : list AttackEvents.row) :
  (sa', ae) ∈ left_join sa attack_events -> sa' = sa.
Proof.
  unfold left_join.
  destruct (filter _ attack_events) as [|e m].
  - rewrite list_elem_of_singleton. congruence.
  - rewrite list_elem_of_fmap. intros (x & [= -> _] & _). reflexivity.
Qed.

(** C10: every row of [real_time_alerts] has status open or investigating
    and stems from an alert of [security_alerts] with that status; no row
    has status resolved or false_positive. *)
Theorem real_time_alerts_status (security_alerts : list SecurityAlerts.row)
  (attack_events : list AttackEvents.row) (r : row) :
  r ∈ real_time_alerts security_alerts attack_events ->
  (status r = open \/ status r = investigating) /\
  status r <> resolved /\ status r <> false_positive /\
  exists sa, sa ∈ security_alerts /\ id r = SecurityAlerts.id sa /\
             status r = SecurityAlerts.status sa.
Proof.
  unfold real_time_alerts. rewrite elem_of_order_by, list_elem_of_fmap.
  intros ([sa ae] & -> & Hj). rewrite list_elem_of_filter in Hj.
  destruct Hj as [Hsel Hj]. rewrite list_elem_of_bind in Hj.
  destruct Hj as (sa0 & Hjoin & Hsa0).
  apply left_join_alert in Hjoin as ->.
  unfold selected in Hsel. cbn in Hsel |- *.
  rewrite !elem_of_cons, elem_of_nil in Hsel.
  assert (Hst : SecurityAlerts.status sa0 = open \/
                SecurityAlerts.status sa0 = investigating) by tauto.
  split; [exact Hst|].
  split; [destruct Hst as [-> | ->]; discriminate|].
  split; [destruct Hst as [-> | ->]; discriminate|].
  exists sa0. auto.
Qed.

Lemma real_time_alerts_status_witness :
  (status sample_row = open \/ status sample_row = investigating) /\
  status sample_row <> resolved /\ status sample_row <> false_positive /\
  exists sa, sa ∈ sample_alerts /\ id sample_row = SecurityAlerts.id sa /\
             status sample_row = SecurityAlerts.status sa.
Proof.
  apply (real_time_alerts_status sample_alerts AttackStatistics.sample_events).
  vm_compute. apply list_elem_of_here.
Defined.

End RealTimeAlertsFacts.

(** ** The trigger function [update_last_seen] *)

Section LastSeenFacts.

Import AttackerFingerprints LastSeen.

Lemma last_seen_apply_update (old : row) (op : update_op) :
  last_seen (apply_update old op) = op_now op.
Proof. reflexivity. Qed.

Lemma last_seen_history (p : row) (ops : list update_op) :
  last_seen <$> history p ops = last_seen p :: (op_now <$> ops).
Proof.
  revert p. induction ops as [|op ops IH]; intros p; cbn [history].
  - reflexivity.
  - rewrite fmap_cons, IH, last_seen_apply_update. reflexivity.
Qed.

(** C9 (as the code has it): an update stamps the row with the reading of
    [NOW()], whatever was stored; over a sequence of updates last-seen
    never decreases provided every reading is at least the value stored
    before it, that is the first reading is at least the profile's
    last-seen and the readings do not decrease. *)
Theorem last_seen_follows_clock (p : row) (ops : list update_op) :
  Sorted Z.le (last_seen p :: (op_now <$> ops)) ->
  Sorted Z.le (last_seen <$> history p ops) /\
  last_seen p <= last_seen (fold_left apply_update ops p).
Proof.
  intros Hclock. rewrite last_seen_history. split; [exact Hclock|].
  apply Sorted_StronglySorted in Hclock; [|intros x y z; apply Z.le_trans].
  apply StronglySorted_inv in Hclock as [_ Hall].
  clear -Hall. destruct ops as [|op ops _] using rev_ind.
  - cbn. lia.
  - rewrite fold_left_app. cbn [fold_left]. rewrite last_seen_apply_update.
    rewrite Forall_forall in Hall. apply Hall.
    apply list_elem_of_fmap. exists op.
    split; [reflexivity|]. apply elem_of_app. right. apply list_elem_of_here.
Qed.

Lemma last_seen_follows_clock_witness :
  Sorted Z.le (last_seen <$> history sample_profile later_updates) /\
  last_seen sample_profile
  <= last_seen (fold_left apply_update later_updates sample_profile).
Proof.
  apply (last_seen_follows_clock sample_profile later_updates).
  cbn. repeat constructor; lia.
Defined.

(** C9, counterexample: an update whose clock reading is 50 lowers a
    stored last-seen of 100 to 50. *)
Lemma last_seen_decreases :
  last_seen sample_profile = 100 /\
  last_seen (apply_update sample_profile earlier_update) = 50 /\
  ~ last_seen sample_profile
    <= last_seen (apply_update sample_profile earlier_update).
Proof. cbn. repeat split; lia. Qed.

End LastSeenFacts.

(** ** [generate_request_id] and the normalizer *)

Section NormalizerFacts.

Import Normalizer.

Lemma generate_request_id_nonempty (epoch_text random_md5 : string) :
  generate_request_id epoch_text random_md5 <> "".
Proof. unfold generate_request_id. cbn. discriminate. Qed.

Lemma length_substring_le (n : nat) (s : string) :
  (String.length (String.substring 0 n s) <= n)%nat.
Proof.
  revert s. induction n as [|n IH]; intros [|c s]; cbn; try lia.
  specialize (IH s). lia.
Qed.

Lemma substring_all (n : nat) (s : string) :
  (String.length s <= n)%nat -> String.substring 0 n s = s.
Proof.
  revert s. induction n as [|n IH]; intros [|c s]; cbn; intros H;
    try reflexivity; try lia.
  f_equal. apply IH. lia.
Qed.

Lemma substring_prefix (n : nat) (s : string) :
  String.prefix (String.substring 0 n s) s = true.
Proof.
  revert s. induction n as [|n IH]; intros [|c s]; cbn; try reflexivity.
  destruct (Ascii.ascii_dec c c); [apply IH | congruence].
Qed.

Lemma length_append (s1 s2 : string) :
  String.length (s1 +:+ s2) = (String.length s1 + String.length s2)%nat.
Proof.
  induction s1 as [|c s1 IH]; [reflexivity|].
  change (S (String.length (s1 +:+ s2))
          = S (String.length s1 + String.length s2)).
  f_equal. exact IH.
Qed.

Lemma length_substring_0 (n : nat) (s : string) :
  String.length (String.substring 0 n s) = Nat.min n (String.length s).
Proof.
  revert s. induction n as [|n IH]; intros [|c s]; try reflexivity.
  change (S (String.length (String.substring 0 n s))
          = S (Nat.min n (String.length s))).
  f_equal. apply IH.
Qed.

Lemma substring_skip (s1 s2 : string) (k n : nat) :
  String.substring (String.length s1 + k) n (s1 +:+ s2) = String.substring k n s2.
Proof. induction s1 as [|c s1 IH]; [reflexivity | exact IH]. Qed.

Lemma substring_take (s1 s2 : string) :
  String.substring 0 (String.length s1) (s1 +:+ s2) = s1.
Proof.
  induction s1 as [|c s1 IH]; [now destruct s2|].
  change (String c (String.substring 0 (String.length s1) (s1 +:+ s2))
          = String c s1).
  f_equal. exact IH.
Qed.

Lemma request_id_length (epoch_text random_md5 : string) :
  (8 <= String.length random_md5)%nat ->
  String.length (generate_request_id epoch_text random_md5)
  = (String.length epoch_text + 13)%nat.
Proof.
  intros Hm. unfold generate_request_id.
  rewrite !length_append, length_substring_0, (Nat.min_l _ _ Hm).
  change (String.length "req_") with 4%nat.
  change (String.length "_") with 1%nat. lia.
Qed.

Lemma request_id_epoch (epoch_text random_md5 : string) :
  String.substring 4 (String.length epoch_text)
    (generate_request_id epoch_text random_md5) = epoch_text.
Proof.
  unfold generate_request_id.
  change 4%nat with (String.length "req_" + 0)%nat.
  rewrite substring_skip. apply substring_take.
Qed.

Lemma request_id_digest (epoch_text random_md5 : string) :
  String.substring (String.length epoch_text + 5) 8
    (generate_request_id epoch_text random_md5)
  = String.substring 0 8 random_md5.
Proof.
  unfold generate_request_id.
  replace (String.length epoch_text + 5)%nat
    with (String.length "req_" + (String.length epoch_text + (String.length "_" + 0)))%nat
    by (change (String.length "req_") with 4%nat;
        change (String.length "_") with 1%nat; lia).
  rewrite !substring_skip. apply substring_all, length_substring_le.
Qed.

(** The identifier determines the clock reading and the eight characters
    of the digest it was generated from. *)
Lemma generate_request_id_inj (e1 e2 m1 m2 : string) :
  (8 <= String.length m1)%nat -> (8 <= String.length m2)%nat ->
  generate_request_id e1 m1 = generate_request_id e2 m2 ->
  e1 = e2 /\ String.substring 0 8 m1 = String.substring 0 8 m2.
Proof.
  intros H1 H2 Heq.
  assert (Hlen : String.length e1 = String.length e2).
  { pose proof (request_id_length e1 m1 H1) as L1.
    pose proof (request_id_length e2 m2 H2) as L2.
    rewrite Heq in L1. lia. }
  split.
  - rewrite <- (request_id_epoch e1 m1), <- (request_id_epoch e2 m2).
    rewrite Heq, Hlen. reflexivity.
  - rewrite <- (request_id_digest e1 m1), <- (request_id_digest e2 m2).
    rewrite Heq, Hlen. reflexivity.
Qed.

Lemma normalize_cases (epoch_text random_md5 : string) (c : raw_capture) :
  (valid c /\
   exists m p h b r t,
     method c = Some m /\ path c = Some p /\ headers c = Some h /\
     body c = Some b /\ remote_address c = Some r /\ timestamp c = Some t /\
     normalize epoch_text random_md5 c
     = Normalized
         {| identifier := generate_request_id epoch_text random_md5;
            event_timestamp := t; source_identity := r; endpoint_path := p;
            http_method := m; header_snapshot := truncate h;
            payload_snapshot := truncate b;
            truncated := exceeds_cap h || exceeds_cap b;
            attack_type_label := None; severity := None |}) \/
  (~ valid c /\ normalize epoch_text random_md5 c = ValidationError).
Proof.
  unfold valid, normalize.
  destruct (method c) as [m|], (path c) as [p|], (headers c) as [h|],
    (body c) as [b|], (remote_address c) as [r|], (timestamp c) as [t|];
    try (right; split; [|reflexivity]; intros (H1 & H2 & H3 & H4 & H5 & H6);
         first [ now destruct H1 | now destruct H2 | now destruct H3
               | now destruct H4 | now destruct H5 | now destruct H6 ]).
  left. split; [repeat split; eauto|]. eexists _, _, _, _, _, _.
  repeat split; reflexivity.
Qed.

(** C8: [normalize] never fails: on a capture that has its required
    fields it returns an event with the method, path, remote address and
    timestamp of the capture, on any other capture the verdict
    ValidationError.  The identifier of the event is the one that
    [generate_request_id] makes at ingestion from the clock and a random
    digest: it is not empty, does not depend on the capture, and differs
    from the identifier of every event normalized with another clock
    reading or with a digest that starts with other eight characters.  The
    header and body snapshots are the captured ones cut to the cap, and
    the flag records exactly whether one of them was cut. *)
Theorem normalize_total (epoch_text random_md5 : string) (c : raw_capture) :
  (valid c ->
   exists e h b,
     normalize epoch_text random_md5 c = Normalized e /\
     identifier e = generate_request_id epoch_text random_md5 /\
     identifier e <> "" /\
     method c = Some (http_method e) /\ path c = Some (endpoint_path e) /\
     remote_address c = Some (source_identity e) /\
     timestamp c = Some (event_timestamp e) /\
     headers c = Some h /\ body c = Some b /\
     String.length (header_snapshot e)
     = Nat.min snapshot_cap (String.length h) /\
     String.length (payload_snapshot e)
     = Nat.min snapshot_cap (String.length b) /\
     String.prefix (header_snapshot e) h = true /\
     String.prefix (payload_snapshot e) b = true /\
     (truncated e = true <->
      (snapshot_cap < String.length h)%nat \/
      (snapshot_cap < String.length b)%nat) /\
     (truncated e = false -> header_snapshot e = h /\ payload_snapshot e = b)) /\
  (~ valid c -> normalize epoch_text random_md5 c = ValidationError) /\
  (forall epoch_text' random_md5' c' e e',
      (8 <= String.length random_md5)%nat ->
      (8 <= String.length random_md5')%nat ->
      normalize epoch_text random_md5 c = Normalized e ->
      normalize epoch_text' random_md5' c' = Normalized e' ->
      (identifier e = identifier e' <->
       epoch_text = epoch_text' /\
       String.substring 0 8 random_md5 = String.substring 0 8 random_md5')).
Proof.
  split; [|split].
  - intros Hv.
    destruct (normalize_cases epoch_text random_md5 c)
      as [(_ & m & p & h & b & r & t & Hm & Hp & Hh & Hb & Hr & Ht & ->)
         | (Hnv & _)]; [|contradiction].
    eexists _, h, b. split; [reflexivity|].
    cbn [identifier header_snapshot payload_snapshot truncated].
    split; [reflexivity|].
    split; [apply generate_request_id_nonempty|].
    cbn [http_method endpoint_path source_identity event_timestamp].
    do 6 (split; [assumption|]).
    split; [apply length_substring_0|].
    split; [apply length_substring_0|].
    split; [apply substring_prefix|].
    split; [apply substring_prefix|].
    unfold exceeds_cap, truncate. split.
    + rewrite orb_true_iff, !Nat.ltb_lt. reflexivity.
    + intros Hflag. apply orb_false_elim in Hflag as [H1 H2].
      apply Nat.ltb_ge in H1, H2.
      split; apply substring_all; assumption.
  - intros Hnv.
    destruct (normalize_cases epoch_text random_md5 c) as [(Hv & _) | (_ & ->)];
      [contradiction | reflexivity].
  - intros epoch_text' random_md5' c' e e' H8 H8' He He'.
    destruct (normalize_cases epoch_text random_md5 c)
      as [(_ & m & p & h & b & r & t & _ & _ & _ & _ & _ & _ & Hn) | (_ & Hn)];
      rewrite Hn in He; [|discriminate]. injection He as <-.
    destruct (normalize_cases epoch_text' random_md5' c')
      as [(_ & m' & p' & h' & b' & r' & t' & _ & _ & _ & _ & _ & _ & Hn')
         | (_ & Hn')];
      rewrite Hn' in He'; [|discriminate]. injection He' as <-.
    cbn [identifier]. split.
    + apply generate_request_id_inj; assumption.
    + intros [-> Hp]. unfold generate_request_id. rewrite Hp. reflexivity.
Qed.

Lemma normalize_total_witness :
  (exists e,
     normalize "1700000060.5" "0123456789abcdef0123456789abcdef" large_capture
     = Normalized e /\
     truncated e = true /\
     String.length (payload_snapshot e) = snapshot_cap) /\
  normalize "1700000060.5" "0123456789abcdef0123456789abcdef" malformed_capture
  = ValidationError.
Proof.
  destruct (normalize_total "1700000060.5" "0123456789abcdef0123456789abcdef"
              large_capture) as (Hvalid & _ & _).
  destruct (normalize_total "1700000060.5" "0123456789abcdef0123456789abcdef"
              malformed_capture) as (_ & Hinvalid & _).
  split.
  - destruct Hvalid
      as (e & h & b & He & _ & _ & _ & _ & _ & _ & Hh & Hb & _ & Hlen & _ & _
          & Hcut & _).
    { unfold valid, large_capture. cbn. repeat split; eexists; reflexivity. }
    exists e. split; [exact He|].
    injection Hh as <-. injection Hb as <-. split.
    + apply Hcut. right. apply Nat.ltb_lt. vm_compute. reflexivity.
    + rewrite Hlen. vm_compute. reflexivity.
  - apply Hinvalid. unfold valid, malformed_capture. cbn.
    intros (_ & _ & _ & _ & [r Hr] & _). discriminate.
Defined.

End NormalizerFacts.

(** ** Alert status and alert creation *)

Section AlertLifecycleFacts.

Import AlertEngine.

Lemma set_status_stage (a : alert) (to : alert_status) :
  stage (status a) <= stage (status (set_status a to)).
Proof.
  unfold set_status. destruct (status a) eqn:Ha, to; cbn; rewrite ?Ha; cbn; lia.
Qed.

Lemma apply_operations_stage (a : alert) (ops : list alert_status) :
  stage (status a) <= stage (status (apply_operations a ops)).
Proof.
  unfold apply_operations. revert a.
  induction ops as [|to ops IH]; intros a; cbn [fold_left].
  - lia.
  - pose proof (set_status_stage a to). specialize (IH (set_status a to)). lia.
Qed.

Lemma set_status_terminal (a : alert) (to : alert_status) :
  status a = resolved \/ status a = false_positive -> set_status a to = a.
Proof. unfold set_status. intros [-> | ->]; reflexivity. Qed.

Lemma apply_operations_terminal (a : alert) (ops : list alert_status) :
  status a = resolved \/ status a = false_positive ->
  apply_operations a ops = a.
Proof.
  unfold apply_operations. intros Ha.
  induction ops as [|to ops IH]; cbn [fold_left]; [reflexivity|].
  rewrite (set_status_terminal a to Ha). exact IH.
Qed.

(** C6: an operation changes the status of an alert only along open ->
    investigating, investigating -> resolved or investigating ->
    false_positive; no sequence of operations moves an alert from
    investigating back to open, or from resolved or false_positive to
    another status. *)
Theorem alert_status_transitions_monotone :
  (forall from to,
      permitted from to = true <->
      (from = open /\ to = investigating) \/
      (from = investigating /\ (to = resolved \/ to = false_positive))) /\
  (forall a to,
      status (set_status a to) <> status a ->
      permitted (status a) to = true /\ status (set_status a to) = to) /\
  (forall a ops,
      stage (status a) <= stage (status (apply_operations a ops))) /\
  (forall a ops,
      status a = investigating -> status (apply_operations a ops) <> open) /\
  (forall a ops,
      status a = resolved \/ status a = false_positive ->
      status (apply_operations a ops) = status a).
Proof.
  split; [|split; [|split; [|split]]].
  - intros [] []; cbn; split; try discriminate; try tauto;
      intros [[? ?] | [? [? | ?]]]; discriminate.
  - intros a to. unfold set_status.
    destruct (permitted (status a) to); cbn; [auto | congruence].
  - apply apply_operations_stage.
  - intros a ops Ha Hopen.
    pose proof (apply_operations_stage a ops) as Hst.
    rewrite Ha, Hopen in Hst. cbn in Hst. lia.
  - intros a ops Ha. rewrite (apply_operations_terminal a ops Ha). reflexivity.
Qed.

Lemma alert_status_transitions_monotone_witness :
  status (apply_operations sample_alert sample_operations) <> open /\
  status (apply_operations (with_status sample_alert resolved) sample_operations)
  = resolved.
Proof.
  destruct alert_status_transitions_monotone as (_ & _ & _ & Hback & Hterm).
  split.
  - apply (Hback sample_alert sample_operations). reflexivity.
  - apply (Hterm (with_status sample_alert resolved) sample_operations).
    left. reflexivity.
Defined.

End AlertLifecycleFacts.

Section AlertCreationFacts.

Import AlertEngine.

Context (cfg : config).













Lemma filter_none {A : Type} (P : A -> Prop) `{!forall x, Decision (P x)}
  (l : list A) :
  Forall (fun x => ~ P x) l -> filter P l = [].
Proof.
  induction 1 as [|x l Hx Hl IH]; [reflexivity|].
  rewrite filter_cons. destruct (decide (P x)); [contradiction | exact IH].
Qed.





End AlertCreationFacts.

Section AlertCreationExample.

Import AlertEngine.



End AlertCreationExample.

(** * Further properties of [init.sql] *)

(** ** [calculate_risk_score]: errors, saturation and what it ignores *)

Section RiskScoreMore.

Import RiskScore.
Local Open Scope Q_scope.

(** X1: [calculate_risk_score] raises "integer out of range" exactly when
    the attack count lies outside -214748364 .. 214748364 or the number
    of unique endpoints outside -1073741824 .. 1073741823; inside these
    ranges it raises the error of the cast of the high weight, or else
    that of the critical weight, when that cast fails, and it returns a
    score exactly when both casts succeed. *)
Theorem calculate_risk_score_raises (a u : Z) (d : Q) (sw : option jsonb) :
  (calculate_risk_score a u d sw = Raise integer_out_of_range <->
   ~ counts_in_range a u) /\
  (forall e,
      e <> integer_out_of_range ->
      (calculate_risk_score a u d sw = Raise e <->
       counts_in_range a u /\
       (severity_present sw "high" = Raise e \/
        (exists h, severity_present sw "high" = Ok h) /\
        severity_present sw "critical" = Raise e))) /\
  ((exists s, calculate_risk_score a u d sw = Ok s) <->
   counts_in_range a u /\
   exists h c, severity_present sw "high" = Ok h /\
               severity_present sw "critical" = Ok c).
Proof.
  pose proof (counts_in_range_int4 a u) as Hr.
  pose proof (severity_multiplier_cases sw) as Hm.
  unfold calculate_risk_score.
  destruct (base_score a u d) as [b|e0] eqn:Hb; cbn [bind].
  - apply base_score_inv in Hb as (Ha & Hu & _).
    destruct (severity_present sw "high") as [h|e1] eqn:Hh.
    + destruct (severity_present sw "critical") as [c|e2] eqn:Hc.
      * destruct Hm as (m & -> & _). cbn [bind].
        split; [split; [discriminate | tauto]|].
        split; [|split; [intros _; split; [tauto | eauto] | eauto]].
        intros e _. split; [discriminate|].
        intros (_ & [? | [_ ?]]); discriminate.
      * rewrite Hm. cbn [bind].
        split; [split; [|tauto]|].
        { intros [= ->]. exfalso. exact (severity_present_raises _ _ _ Hc eq_refl). }
        split.
        { intros e _. split.
          - intros [= ->]. split; [tauto|]. right. eauto.
          - intros (_ & [? | [_ ?]]); congruence. }
        split; [intros [s ?]; discriminate|].
        intros (_ & h' & c' & _ & ?). discriminate.
    + rewrite Hm. cbn [bind].
      split; [split; [|tauto]|].
      { intros [= ->]. exfalso. exact (severity_present_raises _ _ _ Hh eq_refl). }
      split.
      { intros e _. split.
        - intros [= ->]. split; [tauto|]. left. reflexivity.
        - intros (_ & [? | [[h' ?] _]]); congruence. }
      split; [intros [s ?]; discriminate|].
      intros (_ & h' & c' & ? & _). discriminate.
  - apply base_score_raises in Hb as [-> Hout].
    assert (Hnot : ~ counts_in_range a u).
    { rewrite Hr. intros [? ?]; destruct Hout; congruence. }
    split; [tauto|]. split.
    + intros e He. split; [congruence | tauto].
    + split; [intros [s ?]; discriminate | tauto].
Qed.

Lemma calculate_risk_score_raises_witness :
  calculate_risk_score 3 4 0 (Some weights_too_large)
  = Raise double_precision_out_of_range.
Proof.
  destruct (calculate_risk_score_raises 3 4 0 (Some weights_too_large))
    as (_ & Hcast & _).
  apply (Hcast double_precision_out_of_range); [discriminate|].
  split; [unfold counts_in_range; lia|]. left. vm_compute. reflexivity.
Defined.

(** X2: the attack count contributes at most 50: from five attacks on,
    further attacks do not change the score. *)
Theorem attack_count_saturates (a u : Z) (d : Q) (sw : option jsonb) :
  (5 <= a <= 214748364)%Z ->
  calculate_risk_score a u d sw = calculate_risk_score 5 u d sw.
Proof.
  intros Ha. unfold calculate_risk_score, base_score.
  rewrite (int4mul_ok a 10) by (apply in_int4_times_10; lia).
  rewrite (int4mul_ok 5 10) by reflexivity. cbn [bind].
  replace (Z.min (a * 10) 50) with 50%Z by lia.
  replace (Z.min (5 * 10) 50) with 50%Z by reflexivity. reflexivity.
Qed.

Lemma attack_count_saturates_witness :
  calculate_risk_score 156 23 0 (Some weights_high)
  = calculate_risk_score 5 23 0 (Some weights_high).
Proof. apply (attack_count_saturates 156 23 0 (Some weights_high)). lia. Defined.

Lemma severity_multiplier_by_tests sw sw' :
  severity_present sw "high" = severity_present sw' "high" ->
  severity_present sw "critical" = severity_present sw' "critical" ->
  severity_multiplier sw = severity_multiplier sw'.
Proof.
  unfold severity_multiplier.
  destruct sw as [w|], sw' as [w'|]; cbn [severity_present]; intros Hh Hc.
  - rewrite Hh, Hc. reflexivity.
  - rewrite Hh, Hc. reflexivity.
  - rewrite <- Hh, <- Hc. reflexivity.
  - reflexivity.
Qed.

(** X3: the score depends on [severity_weights] only through the outcome
    of the two tests "high weight positive" and "critical weight
    positive": keys other than high and critical play no part, whatever
    they hold; a positive number counts the same whatever its size, as
    long as it fits [double precision]; and a document that is no object
    scores like a NULL document. *)
Theorem severity_weights_only_tested (a u : Z) (d : Q) :
  (forall sw sw',
      severity_present sw "high" = severity_present sw' "high" ->
      severity_present sw "critical" = severity_present sw' "critical" ->
      calculate_risk_score a u d sw = calculate_risk_score a u d sw') /\
  (forall members key v,
      key <> "high" -> key <> "critical" ->
      calculate_risk_score a u d (Some (jobject (<[key := v]> members)))
      = calculate_risk_score a u d (Some (jobject members))) /\
  (forall members key x y,
      float8_least_half < x -> x < float8_overflow ->
      float8_least_half < y -> y < float8_overflow ->
      calculate_risk_score a u d (Some (jobject (<[key := jnumber x]> members)))
      = calculate_risk_score a u d (Some (jobject (<[key := jnumber y]> members)))) /\
  (forall j,
      (forall members, j <> jobject members) ->
      calculate_risk_score a u d (Some j) = calculate_risk_score a u d None).
Proof.
  assert (Htests : forall sw sw',
             severity_present sw "high" = severity_present sw' "high" ->
             severity_present sw "critical" = severity_present sw' "critical" ->
             calculate_risk_score a u d sw = calculate_risk_score a u d sw').
  { intros sw sw' Hh Hc. unfold calculate_risk_score.
    rewrite (severity_multiplier_by_tests sw sw' Hh Hc). reflexivity. }
  split; [exact Htests|]. split; [|split].
  - intros members key v Hh Hc. apply Htests; cbn [severity_present];
      apply weight_positive_insert_ne; assumption.
  - intros members key x y Hx1 Hx2 Hy1 Hy2.
    assert (Hkey : forall k,
               weight_positive (jobject (<[key := jnumber x]> members)) k
               = weight_positive (jobject (<[key := jnumber y]> members)) k).
    { intros k. destruct (decide (key = k)) as [<-|Hne].
      - now rewrite !weight_positive_number.
      - now rewrite !weight_positive_insert_ne. }
    apply Htests; cbn [severity_present]; apply Hkey.
  - intros j Hj. apply Htests; cbn [severity_present];
      unfold weight_positive, jsonb_field_as_float, jsonb_object_field;
      destruct j; try reflexivity; exfalso; eapply Hj; reflexivity.
Qed.

Lemma severity_weights_only_tested_witness :
  calculate_risk_score 3 4 0 (Some weights_ignored)
  = calculate_risk_score 3 4 0 None /\
  calculate_risk_score 3 4 0 (Some (jarray [jstring "high"; jnumber 1]))
  = calculate_risk_score 3 4 0 None.
Proof.
  destruct (severity_weights_only_tested 3 4 0) as (Htests & _ & _ & Hother).
  split.
  - apply (Htests (Some weights_ignored) None); vm_compute; reflexivity.
  - apply Hother. discriminate.
Defined.



(** X5: the session duration matters only through the test "longer than
    3600": two durations on the same side of it give the same score, so a
    session of exactly one hour earns no bonus; and when
    min(attack_count * 10, 50) + unique_endpoints * 2 is not negative a
    longer session never lowers the score. *)
Theorem session_duration_threshold (a u : Z) (d d' : Q) (sw : option jsonb) :
  ((3600 < d <-> 3600 < d') ->
   calculate_risk_score a u d sw = calculate_risk_score a u d' sw) /\
  (forall s s',
      (0 <= Z.min (a * 10) 50 + u * 2)%Z -> d <= d' ->
      calculate_risk_score a u d sw = Ok s ->
      calculate_risk_score a u d' sw = Ok s' -> s <= s').
Proof.
  split.
  - intros Hside. unfold calculate_risk_score, base_score.
    destruct (Qlt_le_dec 3600 d), (Qlt_le_dec 3600 d'); try reflexivity;
      exfalso; intuition lra.
  - intros s s' Hpos Hle H H'.
    apply calculate_risk_score_inv in H as (b & m & Hb & Hm & ->).
    apply calculate_risk_score_inv in H' as (b' & m' & Hb' & Hm' & ->).
    rewrite Hm in Hm'. injection Hm' as <-.
    apply base_score_inv in Hb as (_ & _ & ->).
    apply base_score_inv in Hb' as (_ & _ & ->).
    rewrite Zle_Qle, inject_Z_plus in Hpos. change (inject_Z 0) with 0 in Hpos.
    pose proof (severity_multiplier_pos sw m Hm).
    apply Q.min_le_compat_r.
    destruct (Qlt_le_dec 3600 d), (Qlt_le_dec 3600 d'); nra.
Qed.

Lemma session_duration_threshold_witness :
  calculate_risk_score 3 4 3600 None = calculate_risk_score 3 4 0 None /\
  exists s s', calculate_risk_score 3 4 3600 None = Ok s /\
               calculate_risk_score 3 4 3601 None = Ok s' /\ s <= s'.
Proof.
  destruct (session_duration_threshold 3 4 3600 0 None) as [Hsame _].
  destruct (session_duration_threshold 3 4 3600 3601 None) as [_ Hmono].
  split.
  - apply Hsame. split; intros H; vm_compute in H; discriminate.
  - do 2 eexists. split; [vm_compute; reflexivity|].
    split; [vm_compute; reflexivity|].
    eapply Hmono; [vm_compute; discriminate | vm_compute; discriminate
                  | vm_compute; reflexivity ..].
Defined.

End RiskScoreMore.

(** ** [generate_request_id]: layout, reading back, collisions *)

Section RequestIdFacts.

(** X6: with a digest of at least 8 characters (an md5 digest has 32) the
    identifier is "req_", the epoch text, "_" and the first 8 characters
    of the digest: it is 13 characters longer than the epoch text, and the
    epoch text and the digest prefix are read back from it at offsets 4
    and length + 5. *)
Theorem request_id_layout (epoch_text random_md5 : string) :
  (8 <= String.length random_md5)%nat ->
  let id := generate_request_id epoch_text random_md5 in
  String.length id = (String.length epoch_text + 13)%nat /\
  String.prefix "req_" id = true /\
  String.substring 4 (String.length epoch_text) id = epoch_text /\
  String.substring (String.length epoch_text + 4) 1 id = "_" /\
  String.substring (String.length epoch_text + 5) 8 id
  = String.substring 0 8 random_md5.
Proof.
  intros Hm id.
  split; [apply request_id_length, Hm|].
  split; [apply String.prefix_correct, substring_take|].
  split; [apply request_id_epoch|].
  split; [|apply request_id_digest].
  unfold id, generate_request_id.
  replace (String.length epoch_text + 4)%nat
    with (String.length "req_" + (String.length epoch_text + 0))%nat
    by (change (String.length "req_") with 4%nat; lia).
  rewrite !substring_skip. apply (substring_take "_").
Qed.

Lemma request_id_layout_witness :
  let id := generate_request_id "1700000000.123456"
              "0123456789abcdef0123456789abcdef" in
  String.length id = (String.length "1700000000.123456" + 13)%nat /\
  String.prefix "req_" id = true /\
  String.substring 4 (String.length "1700000000.123456") id
  = "1700000000.123456" /\
  String.substring (String.length "1700000000.123456" + 4) 1 id = "_" /\
  String.substring (String.length "1700000000.123456" + 5) 8 id
  = String.substring 0 8 "0123456789abcdef0123456789abcdef".
Proof.
  apply (request_id_layout "1700000000.123456" "0123456789abcdef0123456789abcdef").
  cbn. lia.
Defined.

(** X7: two identifiers generated with digests of at least 8 characters
    are equal exactly when the epoch texts are equal and the digests agree
    on their first 8 characters: calls that read the same clock collide
    whenever the two random digests share an 8-character prefix. *)
Theorem request_id_collision (e1 e2 m1 m2 : string) :
  (8 <= String.length m1)%nat -> (8 <= String.length m2)%nat ->
  (generate_request_id e1 m1 = generate_request_id e2 m2 <->
   e1 = e2 /\ String.substring 0 8 m1 = String.substring 0 8 m2).
Proof.
  intros H1 H2. split.
  - apply generate_request_id_inj; assumption.
  - intros [-> Hp]. unfold generate_request_id. rewrite Hp. reflexivity.
Qed.

Lemma request_id_collision_witness :
  generate_request_id "1700000000.123456" "0123456789abcdef0123456789abcdef"
  = generate_request_id "1700000000.123456" "01234567ffffffffffffffffffffffff".
Proof.
  apply (request_id_collision "1700000000.123456" "1700000000.123456"
           "0123456789abcdef0123456789abcdef" "01234567ffffffffffffffffffffffff").
  - cbn. lia.
  - cbn. lia.
  - split; reflexivity.
Defined.

End RequestIdFacts.

(** ** [update_last_seen]: the last write wins *)

Section LastSeenMore.

Import AttackerFingerprints LastSeen.

Lemma last_seen_fold (p : row) (ops : list update_op) :
  last_seen (fold_left apply_update ops p)
  = default (last_seen p) (last (op_now <$> ops)).
Proof.
  destruct ops as [|op ops _] using rev_ind; [reflexivity|].
  rewrite fold_left_app, fmap_app.
  change (op_now <$> [op]) with [op_now op]. rewrite last_snoc. reflexivity.
Qed.

(** X8: the trigger overwrites whatever last-seen the statement wrote and
    leaves every other column as the statement wrote it; after a sequence
    of updates last-seen is the clock reading of the last one, whatever was
    stored before and whatever the earlier updates read. *)
Theorem update_last_seen_last_write_wins :
  (forall now x r,
      update_last_seen now (set_last_seen x r) = update_last_seen now r) /\
  (forall now r,
      set_last_seen (last_seen r) (update_last_seen now r) = r) /\
  (forall p ops op,
      last_seen (fold_left apply_update (ops ++ [op]) p) = op_now op) /\
  (forall p ops,
      last_seen (fold_left apply_update ops p)
      = default (last_seen p) (last (op_now <$> ops))).
Proof.
  split; [reflexivity|].
  split; [intros now []; reflexivity|].
  split; [|apply last_seen_fold].
  intros p ops op. rewrite last_seen_fold, fmap_app.
  change (op_now <$> [op]) with [op_now op]. rewrite last_snoc. reflexivity.
Qed.

End LastSeenMore.

(** ** [ORDER BY] *)

Section OrderByMore.

Context {A : Type} (before : A -> A -> bool).

Lemma insert_ordered_perm (x : A) (l : list A) :
  insert_ordered before x l ≡ₚ x :: l.
Proof.
  induction l as [|y l IH]; cbn; [reflexivity|].
  destruct (before x y); [reflexivity|].
  rewrite IH. apply Permutation_swap.
Qed.

Lemma order_by_perm (l : list A) : order_by before l ≡ₚ l.
Proof.
  induction l as [|x l IH]; cbn; [reflexivity|].
  rewrite insert_ordered_perm. unfold order_by in IH. rewrite IH. reflexivity.
Qed.

Lemma length_order_by (l : list A) : length (order_by before l) = length l.
Proof. apply Permutation_length, order_by_perm. Qed.

Hypothesis before_total : forall x y, before x y = false -> before y x = true.

Lemma insert_ordered_sorted (x : A) (l : list A) :
  Sorted (fun a b => before a b = true) l ->
  Sorted (fun a b => before a b = true) (insert_ordered before x l).
Proof.
  induction 1 as [|y l Hl IH Hy]; cbn.
  - repeat constructor.
  - destruct (before x y) eqn:Hxy.
    + constructor; [constructor; assumption | constructor; exact Hxy].
    + constructor; [exact IH|].
      destruct l as [|z l]; cbn.
      * constructor. apply before_total, Hxy.
      * destruct (before x z); constructor;
          [apply before_total, Hxy | inversion Hy; assumption].
Qed.

Lemma order_by_sorted (l : list A) :
  Sorted (fun a b => before a b = true) (order_by before l).
Proof.
  induction l as [|x l IH]; cbn; [constructor|].
  apply insert_ordered_sorted, IH.
Qed.

End OrderByMore.

(** ** Sums over groups *)

Section GroupSums.

Lemma Sorted_weaken {A : Type} (R R' : A -> A -> Prop) (l : list A) :
  (forall a b, R a b -> R' a b) -> Sorted R l -> Sorted R' l.
Proof.
  intros HR. induction 1 as [|x l Hl IH Hx]; constructor; [exact IH|].
  destruct Hx; constructor. auto.
Qed.

Lemma sql_sum_perm (l l' : list Z) : l ≡ₚ l' -> sql_sum l = sql_sum l'.
Proof. unfold sql_sum. induction 1; cbn [foldr] in *; lia. Qed.

Lemma sql_sum_add {K : Type} (f g : K -> Z) (keys : list K) :
  sql_sum ((fun k => f k + g k) <$> keys)
  = sql_sum (f <$> keys) + sql_sum (g <$> keys).
Proof.
  unfold sql_sum. induction keys as [|k keys IH]; cbn [foldr fmap list_fmap] in *; lia.
Qed.

Lemma sql_sum_indicator {K : Type} `{EqDecision K} (x : K) (keys : list K) :
  NoDup keys ->
  sql_sum ((fun k => if decide (x = k) then 1 else 0) <$> keys)
  = if decide (x ∈ keys) then 1 else 0.
Proof.
  unfold sql_sum.
  induction 1 as [|k keys Hk Hnd IH]; cbn [foldr fmap list_fmap].
  - rewrite decide_False; [reflexivity | apply not_elem_of_nil].
  - rewrite IH.
    destruct (decide (x = k)) as [Heq|Hne], (decide (x ∈ keys)) as [Hin|Hout],
      (decide (x ∈ k :: keys)) as [Hin'|Hout']; try reflexivity; exfalso.
    + subst. exact (Hk Hin).
    + subst. exact (Hk Hin).
    + apply Hout'. subst. left.
    + apply Hout'. right. exact Hin.
    + apply elem_of_cons in Hin' as [?|?]; contradiction.
Qed.

Lemma sql_count_cons {A : Type} (x : A) (l : list A) :
  sql_count (x :: l) = 1 + sql_count l.
Proof. unfold sql_count. cbn [length]. lia. Qed.

Lemma group_partition {A K : Type} `{EqDecision K} (key : A -> K)
  (l : list A) (keys : list K) :
  NoDup keys -> (forall e, e ∈ l -> key e ∈ keys) ->
  sql_sum ((fun k => sql_count (filter (fun e => key e = k) l)) <$> keys)
  = sql_count l.
Proof.
  intros Hnd. induction l as [|e l IH]; intros Hin.
  - unfold sql_sum. clear.
    induction keys as [|k keys IHk]; cbn [fmap list_fmap foldr]; [reflexivity|].
    rewrite IHk. reflexivity.
  - rewrite sql_count_cons, <- IH by (intros e' He'; apply Hin; right; exact He').
    replace 1 with
      (sql_sum ((fun k => if decide (key e = k) then 1 else 0) <$> keys)).
    2: { rewrite (sql_sum_indicator (key e) keys Hnd).
         apply decide_True, Hin. left. }
    rewrite <- sql_sum_add. f_equal. apply list_fmap_ext. intros _ k _.
    rewrite filter_cons.
    destruct (decide (key e = k)); [apply sql_count_cons | reflexivity].
Qed.


Lemma remove_dups_nonempty {A : Type} `{EqDecision A} (l : list A) :
  l <> [] -> remove_dups l <> [].
Proof.
  destruct l as [|x l]; [congruence|]. intros _ Hnil.
  assert (Hx : x ∈ remove_dups (x :: l)) by (apply elem_of_remove_dups; left).
  rewrite Hnil in Hx. now apply elem_of_nil in Hx.
Qed.

End GroupSums.

(** ** The view [attack_statistics]: groups, counts, order, window *)

Section AttackStatisticsMore.

Import AttackStatistics.

Lemma listed_before_total (r1 r2 : row) :
  listed_before r1 r2 = false -> listed_before r2 r1 = true.
Proof.
  unfold listed_before.
  rewrite orb_false_iff, andb_false_iff, orb_true_iff, andb_true_iff.
  rewrite !Z.ltb_ge, !Z.ltb_lt, !Z.eqb_neq, !Z.eqb_eq, !Z.leb_gt, !Z.leb_le. lia.
Qed.

(** X9: the rows of [attack_statistics] are listed by hour, latest first,
    and within one hour by attack count, largest first. *)
Theorem attack_statistics_ordered (now : Z) (events : list AttackEvents.row) :
  Sorted (fun r1 r2 => hour r2 < hour r1 \/
                       (hour r1 = hour r2 /\ attack_count r2 <= attack_count r1))
         (attack_statistics now events).
Proof.
  unfold attack_statistics.
  eapply Sorted_weaken; [|apply order_by_sorted, listed_before_total].
  intros r1 r2. unfold listed_before.
  rewrite orb_true_iff, andb_true_iff, Z.ltb_lt, Z.eqb_eq, Z.leb_le. tauto.
Qed.

Lemma attack_statistics_perm (now : Z) (events : list AttackEvents.row) :
  attack_statistics now events ≡ₚ
  (fun k => aggregate k (group_rows k (filter (recent now) events)))
    <$> remove_dups (group_key <$> filter (recent now) events).
Proof. apply order_by_perm. Qed.

(** X10: [attack_statistics] has exactly one row for each (hour, source)
    that has an event in the last 24 hours, and the attack counts of its
    rows add up to the number of events in that window: no event is lost
    and none is counted twice. *)
Theorem attack_statistics_partition (now : Z) (events : list AttackEvents.row) :
  NoDup ((fun r => (hour r, source_ip r)) <$> attack_statistics now events) /\
  (forall e, e ∈ events -> recent now e ->
     exists r, r ∈ attack_statistics now events /\
               (hour r, source_ip r) = group_key e) /\
  sql_sum (attack_count <$> attack_statistics now events)
  = sql_count (filter (recent now) events).
Proof.
  split; [|split].
  - rewrite attack_statistics_perm, <- list_fmap_compose.
    erewrite (list_fmap_ext _ id);
      [rewrite list_fmap_id; apply NoDup_remove_dups|].
    intros i [h ip] _. reflexivity.
  - intros e He Hrec.
    exists (aggregate (group_key e)
              (group_rows (group_key e) (filter (recent now) events))).
    split; [|symmetry; apply surjective_pairing].
    rewrite attack_statistics_perm.
    apply list_elem_of_fmap. exists (group_key e). split; [reflexivity|].
    apply elem_of_remove_dups, list_elem_of_fmap. exists e.
    split; [reflexivity|]. apply list_elem_of_filter. auto.
  - rewrite (sql_sum_perm _ _ (fmap_Permutation _ _ _ (attack_statistics_perm now events))).
    rewrite <- list_fmap_compose.
    apply (group_partition group_key); [apply NoDup_remove_dups|].
    intros e He. apply elem_of_remove_dups, list_elem_of_fmap. eauto.
Qed.









Lemma date_trunc_hour_spec (ts : Z) :
  date_trunc_hour ts mod microseconds_per_hour = 0 /\
  date_trunc_hour ts <= ts < date_trunc_hour ts + microseconds_per_hour.
Proof.
  unfold date_trunc_hour.
  assert (Hpos : 0 < microseconds_per_hour) by reflexivity.
  pose proof (Z.mod_pos_bound ts _ Hpos).
  split; [|lia].
  rewrite Zminus_mod, Zmod_mod, Z.sub_diag. reflexivity.
Qed.

(** X12: [attack_statistics] reads only the events stamped no earlier
    than 24 hours before [NOW()]: older events change nothing.  Every row's
    hour is a whole hour later than [NOW()] minus 25 hours, and each event
    it counts is from the row's source, within the window and within the
    row's hour. *)
Theorem attack_statistics_window (now : Z) (events : list AttackEvents.row) :
  (forall old,
      Forall (fun e => AttackEvents.timestamp e < now - interval_24_hours) old ->
      attack_statistics now (old ++ events) = attack_statistics now events) /\
  (forall r,
      r ∈ attack_statistics now events ->
      hour r mod microseconds_per_hour = 0 /\
      now - interval_24_hours - microseconds_per_hour < hour r /\
      forall e,
        e ∈ group_rows (hour r, source_ip r) (filter (recent now) events) ->
        e ∈ events /\ AttackEvents.source_ip e = source_ip r /\
        now - interval_24_hours <= AttackEvents.timestamp e /\
        hour r <= AttackEvents.timestamp e < hour r + microseconds_per_hour).
Proof.
  split.
  - intros old Hold. unfold attack_statistics.
    rewrite filter_app, (filter_none (recent now) old); [reflexivity|].
    eapply Forall_impl; [exact Hold|]. unfold recent. cbn. lia.
  - intros r Hr.
    assert (Hev : forall e,
               e ∈ group_rows (hour r, source_ip r) (filter (recent now) events) ->
               e ∈ events /\ AttackEvents.source_ip e = source_ip r /\
               now - interval_24_hours <= AttackEvents.timestamp e /\
               hour r <= AttackEvents.timestamp e < hour r + microseconds_per_hour).
    { intros e He. unfold group_rows in He.
      rewrite !list_elem_of_filter in He. destruct He as (Hkey & Hrec & He).
      unfold group_key in Hkey. injection Hkey as Hh Hip.
      pose proof (date_trunc_hour_spec (AttackEvents.timestamp e)) as [_ Hb].
      rewrite Hh in Hb. unfold recent in Hrec. auto. }
    apply attack_statistics_row in Hr as ([h ip] & Hk & Hr).
    pose proof (group_rows_nonempty _ _ Hk) as Hne.
    assert (Hhour : hour r = h) by (rewrite Hr; reflexivity).
    assert (Hip : source_ip r = ip) by (rewrite Hr; reflexivity).
    rewrite Hhour, Hip in Hev |- *.
    apply list_elem_of_fmap in Hk as (e0 & Hkey & He0).
    unfold group_key in Hkey. injection Hkey as Hh _.
    pose proof (date_trunc_hour_spec (AttackEvents.timestamp e0)) as [Hmod Hb].
    rewrite <- Hh in Hmod, Hb.
    apply list_elem_of_filter in He0 as [Hrec _]. unfold recent in Hrec.
    split; [exact Hmod|]. split; [lia | exact Hev].
Qed.

Lemma attack_statistics_window_witness :
  attack_statistics 90000000000 ([sample_event 5 100 "203.0.113.7" critical]
                                 ++ sample_events)
  = attack_statistics 90000000000 sample_events /\
  hour aged_row mod microseconds_per_hour = 0 /\
  90000000000 - interval_24_hours - microseconds_per_hour < hour aged_row.
Proof.
  destruct (attack_statistics_window 90000000000 sample_events) as [Hold _].
  destruct (attack_statistics_window 90000000000 aged_events) as [_ Hrow].
  split.
  - apply Hold. repeat constructor.
  - destruct (Hrow aged_row) as (Hmod & Hlate & _).
    + vm_compute. apply list_elem_of_here.
    + split; [exact Hmod | exact Hlate].
Defined.





End AttackStatisticsMore.

(** ** The view [real_time_alerts]: completeness, row count, order *)

Section RealTimeAlertsMore.

Import RealTimeAlerts.

Lemma elem_of_left_join (sa : SecurityAlerts.row)
  (attack_events : list AttackEvents.row)
  (j : SecurityAlerts.row * option AttackEvents.row) :
  j ∈ left_join sa attack_events <->
  (exists ae, j = (sa, Some ae) /\ ae ∈ matching sa attack_events) \/
  (j = (sa, None) /\ matching sa attack_events = []).
Proof.
  unfold left_join. fold (matching sa attack_events).
  destruct (matching sa attack_events) as [|e m] eqn:Hm.
  - rewrite list_elem_of_singleton. split.
    + intros ->. right. auto.
    + intros [(ae & _ & Hae) | [-> _]]; [|reflexivity].
      now apply elem_of_nil in Hae.
  - rewrite list_elem_of_fmap. split.
    + intros (ae & -> & Hae). left. eauto.
    + intros [(ae & -> & Hae) | [_ Hnil]]; [eauto | discriminate].
Qed.

Lemma elem_of_real_time_alerts (security_alerts : list SecurityAlerts.row)
  (attack_events : list AttackEvents.row) (r : row) :
  r ∈ real_time_alerts security_alerts attack_events <->
  exists sa ae, r = project (sa, ae) /\ sa ∈ security_alerts /\
                SecurityAlerts.status sa ∈ [open; investigating] /\
                (sa, ae) ∈ left_join sa attack_events.
Proof.
  unfold real_time_alerts. rewrite elem_of_order_by, list_elem_of_fmap. split.
  - intros ([sa ae] & -> & Hj). rewrite list_elem_of_filter in Hj.
    destruct Hj as [Hsel Hj]. rewrite list_elem_of_bind in Hj.
    destruct Hj as (sa0 & Hjoin & Hsa0).
    pose proof (left_join_alert _ _ _ _ Hjoin) as ->.
    exists sa0, ae. auto.
  - intros (sa & ae & -> & Hsa & Hst & Hj). exists (sa, ae).
    split; [reflexivity|]. rewrite list_elem_of_filter. split; [exact Hst|].
    rewrite list_elem_of_bind. eauto.
Qed.

(** X14: every open or investigating alert appears in [real_time_alerts]:
    once for each of its contributing events that [attack_events] holds,
    with that event's attack type and anomaly score, and once with NULL in
    both columns when it holds none of them. *)
Theorem real_time_alerts_complete (security_alerts : list SecurityAlerts.row)
  (attack_events : list AttackEvents.row) (sa : SecurityAlerts.row) :
  sa ∈ security_alerts ->
  SecurityAlerts.status sa = open \/ SecurityAlerts.status sa = investigating ->
  (forall ae, ae ∈ attack_events ->
              AttackEvents.id ae ∈ SecurityAlerts.attack_event_ids sa ->
              project (sa, Some ae) ∈ real_time_alerts security_alerts attack_events) /\
  ((forall ae, ae ∈ attack_events ->
               AttackEvents.id ae ∉ SecurityAlerts.attack_event_ids sa) ->
   project (sa, None) ∈ real_time_alerts security_alerts attack_events) /\
  exists r, r ∈ real_time_alerts security_alerts attack_events /\
            id r = SecurityAlerts.id sa /\ status r = SecurityAlerts.status sa.
Proof.
  intros Hsa Hst.
  assert (Hin : SecurityAlerts.status sa ∈ [open; investigating]).
  { rewrite !elem_of_cons. tauto. }
  assert (Hsome : forall ae, ae ∈ attack_events ->
             AttackEvents.id ae ∈ SecurityAlerts.attack_event_ids sa ->
             project (sa, Some ae) ∈ real_time_alerts security_alerts attack_events).
  { intros ae Hae Hid. apply elem_of_real_time_alerts. exists sa, (Some ae).
    repeat split; try assumption. apply elem_of_left_join. left. exists ae.
    split; [reflexivity|]. apply list_elem_of_filter. auto. }
  assert (Hnone : (forall ae, ae ∈ attack_events ->
               AttackEvents.id ae ∉ SecurityAlerts.attack_event_ids sa) ->
             project (sa, None) ∈ real_time_alerts security_alerts attack_events).
  { intros Hno. apply elem_of_real_time_alerts. exists sa, None.
    repeat split; try assumption. apply elem_of_left_join. right.
    split; [reflexivity|]. apply filter_none, Forall_forall. exact Hno. }
  split; [exact Hsome|]. split; [exact Hnone|].
  destruct (matching sa attack_events) as [|ae m] eqn:Hm.
  - exists (project (sa, None)). split; [|split; reflexivity].
    apply Hnone. intros ae Hae Hid.
    assert (H : ae ∈ matching sa attack_events)
      by (apply list_elem_of_filter; auto).
    rewrite Hm in H. now apply elem_of_nil in H.
  - exists (project (sa, Some ae)). split; [|split; reflexivity].
    assert (H : ae ∈ matching sa attack_events) by (rewrite Hm; left).
    apply list_elem_of_filter in H as [Hid Hae]. apply Hsome; assumption.
Qed.

Lemma real_time_alerts_complete_witness :
  project (sample_alert 1 250 open [2; 4],
           Some (AttackStatistics.sample_event 4 400 "203.0.113.7" high))
  ∈ real_time_alerts sample_alerts AttackStatistics.sample_events.
Proof.
  destruct (real_time_alerts_complete sample_alerts AttackStatistics.sample_events
              (sample_alert 1 250 open [2; 4])) as [Hsome _].
  - apply list_elem_of_here.
  - left. reflexivity.
  - apply Hsome.
    + unfold AttackStatistics.sample_events. do 3 right. left.
    + cbn. right. left.
Defined.

Lemma filter_all {A : Type} (P : A -> Prop) `{!forall x, Decision (P x)}
  (l : list A) :
  Forall P l -> filter P l = l.
Proof.
  induction 1 as [|x l Hx Hl IH]; [reflexivity|].
  rewrite filter_cons, decide_True by exact Hx. now rewrite IH.
Qed.

Lemma length_left_join (sa : SecurityAlerts.row)
  (attack_events : list AttackEvents.row) :
  length (left_join sa attack_events)
  = Nat.max 1 (length (matching sa attack_events)).
Proof.
  unfold left_join. fold (matching sa attack_events).
  destruct (matching sa attack_events) as [|e m]; [reflexivity|].
  rewrite length_fmap. cbn [length]. lia.
Qed.

Lemma filter_selected_left_join (sa : SecurityAlerts.row)
  (attack_events : list AttackEvents.row) :
  filter selected (left_join sa attack_events)
  = if decide (SecurityAlerts.status sa ∈ [open; investigating])
    then left_join sa attack_events else [].
Proof.
  destruct (decide (SecurityAlerts.status sa ∈ [open; investigating])) as [Hin|Hout].
  - apply filter_all, Forall_forall. intros [sa' ae] Hj.
    apply left_join_alert in Hj as ->. exact Hin.
  - apply filter_none, Forall_forall. intros [sa' ae] Hj.
    apply left_join_alert in Hj as ->. exact Hout.
Qed.

(** X15: [real_time_alerts] has one row for each contributing event that
    [attack_events] holds of each open or investigating alert, and one row
    for each such alert of which it holds none; an alert with several
    stored contributing events is therefore listed several times. *)
Theorem real_time_alerts_row_count (security_alerts : list SecurityAlerts.row)
  (attack_events : list AttackEvents.row) :
  length (real_time_alerts security_alerts attack_events)
  = sum_list
      ((fun sa => Nat.max 1 (length (matching sa attack_events)))
         <$> filter (fun sa => SecurityAlerts.status sa ∈ [open; investigating])
                    security_alerts).
Proof.
  unfold real_time_alerts. rewrite length_order_by, length_fmap.
  induction security_alerts as [|sa l IH]; [reflexivity|].
  rewrite bind_cons, filter_app, length_app, IH, filter_selected_left_join.
  rewrite filter_cons.
  destruct (decide (SecurityAlerts.status sa ∈ [open; investigating])).
  - rewrite fmap_cons. cbn [sum_list sum_list_with].
    rewrite length_left_join. reflexivity.
  - reflexivity.
Qed.

(** X16: the rows of [real_time_alerts] are listed by alert timestamp,
    latest first. *)
Theorem real_time_alerts_ordered (security_alerts : list SecurityAlerts.row)
  (attack_events : list AttackEvents.row) :
  Sorted (fun r1 r2 => timestamp r2 <= timestamp r1)
         (real_time_alerts security_alerts attack_events).
Proof.
  unfold real_time_alerts.
  eapply Sorted_weaken; [|apply order_by_sorted].
  - intros r1 r2. unfold listed_before. apply Z.leb_le.
  - intros r1 r2. unfold listed_before. rewrite Z.leb_gt, Z.leb_le. lia.
Qed.

End RealTimeAlertsMore.

(** ** The view [threat_intelligence] *)

Section DistinctBy.

Context {A : Type} (eqb : A -> A -> bool).

Lemma distinct_by_leibniz (l : list A) :
  (forall a b, a ∈ l -> b ∈ l -> (eqb a b = true <-> a = b)) ->
  NoDup (distinct_by eqb l) /\ (forall x, x ∈ distinct_by eqb l <-> x ∈ l).
Proof.
  induction l as [|x l IH]; intros Heq; cbn [distinct_by].
  - split; [constructor | reflexivity].
  - destruct IH as [Hnd Hel].
    { intros a b Ha Hb. apply Heq; right; assumption. }
    assert (Hxx : eqb x x = true) by (apply Heq; [left | left | reflexivity]).
    split.
    + constructor; [|apply NoDup_filter, Hnd].
      rewrite list_elem_of_filter. intros [Hf _]. congruence.
    + intros z. rewrite !elem_of_cons, list_elem_of_filter, Hel. split.
      * intros [-> | [_ Hz]]; auto.
      * intros [-> | Hz]; [auto|].
        destruct (eqb x z) eqn:Hxz; [|auto].
        left. symmetry. apply Heq; [left | right; exact Hz | exact Hxz].
Qed.

End DistinctBy.

Section ThreatIntelligenceFacts.

Import ThreatIntelligence.

Lemma same_group_refl (a : AttackerFingerprints.row) : same_group a a = true.
Proof.
  unfold same_group.
  rewrite !Z.eqb_refl, !bool_decide_eq_true_2 by reflexivity.
  rewrite (proj2 (Qeq_bool_iff _ _) (Qeq_refl _)). reflexivity.
Qed.

Lemma same_group_id (a b : AttackerFingerprints.row) :
  same_group a b = true -> AttackerFingerprints.id a = AttackerFingerprints.id b.
Proof.
  unfold same_group. rewrite !andb_true_iff. intros H.
  apply Z.eqb_eq. tauto.
Qed.

Lemma NoDup_fmap_inj_on {B C : Type} (f : B -> C) (l : list B) (a b : B) :
  NoDup (f <$> l) -> a ∈ l -> b ∈ l -> f a = f b -> a = b.
Proof.
  induction l as [|x l IH]; intros Hnd Ha Hb Hf.
  - now apply elem_of_nil in Ha.
  - rewrite fmap_cons in Hnd. apply NoDup_cons in Hnd as [Hx Hnd].
    apply elem_of_cons in Ha as [-> | Ha], Hb as [-> | Hb].
    + reflexivity.
    + exfalso. apply Hx. rewrite Hf. apply list_elem_of_fmap. eauto.
    + exfalso. apply Hx. rewrite <- Hf. apply list_elem_of_fmap. eauto.
    + apply IH; assumption.
Qed.

Lemma left_join_fst (af a : AttackerFingerprints.row) (ae : option AttackEvents.row)
  (attack_events : list AttackEvents.row) :
  (a, ae) ∈ left_join af attack_events -> a = af.
Proof.
  unfold left_join. destruct (matching af attack_events) as [|e m].
  - rewrite list_elem_of_singleton. congruence.
  - rewrite list_elem_of_fmap. intros (x & [= -> _] & _). reflexivity.
Qed.

Lemma left_join_nonempty (af : AttackerFingerprints.row)
  (attack_events : list AttackEvents.row) :
  exists ae, (af, ae) ∈ left_join af attack_events.
Proof.
  unfold left_join. destruct (matching af attack_events) as [|e m].
  - exists None. apply list_elem_of_here.
  - exists (Some e). rewrite fmap_cons. apply list_elem_of_here.
Qed.

Lemma filter_group_left_join (af a : AttackerFingerprints.row)
  (attack_events : list AttackEvents.row) :
  filter (fun j => same_group af (fst j) = true) (left_join a attack_events)
  = if same_group af a then left_join a attack_events else [].
Proof.
  destruct (same_group af a) eqn:Hsg.
  - apply filter_all, Forall_forall. intros [a' ae] Hj.
    apply left_join_fst in Hj as ->. exact Hsg.
  - apply filter_none, Forall_forall. intros [a' ae] Hj.
    apply left_join_fst in Hj as ->. cbn. congruence.
Qed.

Lemma group_of_member (af : AttackerFingerprints.row)
  (l : list AttackerFingerprints.row) (attack_events : list AttackEvents.row) :
  (forall a b, a ∈ l -> b ∈ l -> (same_group a b = true <-> a = b)) ->
  NoDup l -> af ∈ l ->
  filter (fun j => same_group af (fst j) = true)
         (l ≫= (fun a => left_join a attack_events))
  = left_join af attack_events.
Proof.
  induction l as [|a l IH]; intros Heq Hnd Haf.
  - now apply elem_of_nil in Haf.
  - rewrite bind_cons, filter_app, filter_group_left_join.
    apply NoDup_cons in Hnd as [Ha Hnd].
    destruct (same_group af a) eqn:Hsg.
    + assert (af = a) as -> by (apply Heq; [exact Haf | left | exact Hsg]).
      rewrite filter_none; [apply app_nil_r|].
      apply Forall_forall. intros [a' ae] Hj.
      apply list_elem_of_bind in Hj as (a'' & Hj & Ha'').
      apply left_join_fst in Hj as ->. cbn. intros Hsg'.
      apply Ha. replace a with a''; [exact Ha''|].
      symmetry. apply Heq; [left | right; exact Ha'' | exact Hsg'].
    + cbn [app]. apply IH; [|exact Hnd|].
      * intros x y Hx Hy. apply Heq; right; assumption.
      * apply elem_of_cons in Haf as [->|Haf]; [|exact Haf].
        rewrite same_group_refl in Hsg. discriminate.
Qed.

Section PrimaryKey.

Context (fingerprints : list AttackerFingerprints.row)
        (attack_events : list AttackEvents.row).

Hypothesis primary_key : NoDup (AttackerFingerprints.id <$> fingerprints).

Lemma same_group_eq (a b : AttackerFingerprints.row) :
  a ∈ fingerprints -> b ∈ fingerprints -> (same_group a b = true <-> a = b).
Proof.
  intros Ha Hb. split.
  - intros H. apply same_group_id in H.
    exact (NoDup_fmap_inj_on _ _ _ _ primary_key Ha Hb H).
  - intros ->. apply same_group_refl.
Qed.

Lemma group_is_left_join (af : AttackerFingerprints.row) :
  af ∈ fingerprints ->
  filter (fun j => same_group af (fst j) = true)
         (fingerprints ≫= (fun a => left_join a attack_events))
  = left_join af attack_events.
Proof.
  intros Haf. apply group_of_member; [|eapply NoDup_fmap_1; exact primary_key
                                      | exact Haf].
  intros a b Ha Hb. apply same_group_eq; assumption.
Qed.

Lemma threat_intelligence_perm :
  threat_intelligence fingerprints attack_events ≡ₚ
  (fun af => aggregate af (snd <$> left_join af attack_events)) <$> fingerprints.
Proof.
  unfold threat_intelligence. rewrite order_by_perm.
  set (joined := fingerprints ≫= (fun af => left_join af attack_events)).
  assert (Hfst : forall a, a ∈ (fst <$> joined) <-> a ∈ fingerprints).
  { intros a. unfold joined. rewrite list_elem_of_fmap. split.
    - intros ([a' ae] & -> & Hj). apply list_elem_of_bind in Hj as (a'' & Hj & Ha'').
      apply left_join_fst in Hj as ->. exact Ha''.
    - intros Ha. destruct (left_join_nonempty a attack_events) as [ae Hae].
      exists (a, ae). split; [reflexivity|]. apply list_elem_of_bind. eauto. }
  destruct (distinct_by_leibniz same_group (fst <$> joined)) as [Hnd Hel].
  { intros a b Ha Hb. apply same_group_eq; apply Hfst; assumption. }
  assert (Hkeys : distinct_by same_group (fst <$> joined) ≡ₚ fingerprints).
  { apply NoDup_Permutation; [exact Hnd | eapply NoDup_fmap_1; exact primary_key|].
    intros a. rewrite Hel. apply Hfst. }
  rewrite <- Hkeys. apply Permutation_refl'.
  apply list_fmap_ext. intros i af Haf. unfold group_rows. f_equal. f_equal.
  apply group_is_left_join, Hfst, Hel.
  apply list_elem_of_lookup_2 in Haf. exact Haf.
Qed.

Lemma threat_intelligence_row (r : row) :
  r ∈ threat_intelligence fingerprints attack_events ->
  exists af, af ∈ fingerprints /\
             r = aggregate af (snd <$> left_join af attack_events).
Proof.
  rewrite threat_intelligence_perm, list_elem_of_fmap.
  intros (af & -> & Haf). eauto.
Qed.

End PrimaryKey.

Lemma snd_left_join (af : AttackerFingerprints.row)
  (attack_events : list AttackEvents.row) :
  snd <$> left_join af attack_events
  = match events_of (AttackerFingerprints.source_ip af) attack_events with
    | [] => [None]
    | m => Some <$> m
    end.
Proof.
  unfold left_join, matching, events_of.
  destruct (filter _ attack_events) as [|e m]; [reflexivity|].
  rewrite <- list_fmap_compose. reflexivity.
Qed.

Lemma count_severity_some (s : severity_level) (m : list AttackEvents.row) :
  count_severity s (Some <$> m)
  = sql_count (filter (fun ae => AttackEvents.severity ae = s) m).
Proof.
  unfold count_severity, sql_count. f_equal.
  induction m as [|ae m IH]; [reflexivity|].
  rewrite fmap_cons, !filter_cons.
  destruct (decide (AttackEvents.severity ae = s)) as [Hs|Hs].
  - rewrite decide_True by (cbn; congruence). cbn [length]. congruence.
  - rewrite decide_False by (cbn; congruence). exact IH.
Qed.

Lemma omap_timestamp_some (m : list AttackEvents.row) :
  omap (fun ae : option AttackEvents.row => AttackEvents.timestamp <$> ae)
       (Some <$> m)
  = AttackEvents.timestamp <$> m.
Proof. induction m as [|ae m IH]; [reflexivity|]. cbn. now rewrite <- IH. Qed.

Lemma fold_max_spec (l : list Z) (a : Z) :
  (fold_left Z.max l a = a \/ fold_left Z.max l a ∈ l) /\
  a <= fold_left Z.max l a /\
  (forall x, x ∈ l -> x <= fold_left Z.max l a).
Proof.
  revert a. induction l as [|y l IH]; intros a; cbn [fold_left].
  - split; [left; reflexivity|]. split; [lia|]. intros x Hx.
    now apply elem_of_nil in Hx.
  - destruct (IH (Z.max a y)) as (Hm & Hge & Hall).
    split; [|split].
    + destruct Hm as [Hm|Hm]; [|right; right; exact Hm].
      rewrite Hm. destruct (Z.max_spec a y) as [[_ ->]|[_ ->]];
        [right; left | left]; reflexivity.
    + lia.
    + intros x Hx. apply elem_of_cons in Hx as [->|Hx]; [lia | auto].
Qed.

Lemma sql_max_timestamp_spec (l : list Z) :
  l <> [] ->
  exists t, sql_max_timestamp l = Some t /\ t ∈ l /\ forall x, x ∈ l -> x <= t.
Proof.
  destruct l as [|a l]; [congruence|]. intros _. cbn [sql_max_timestamp].
  destruct (fold_max_spec l a) as (Hm & Hge & Hall).
  eexists. split; [reflexivity|]. split.
  - destruct Hm as [-> | Hm]; [left | right; exact Hm].
  - intros x Hx. apply elem_of_cons in Hx as [->|Hx]; auto.
Qed.

(** X17: when [id] is a key of [attacker_fingerprints], the view
    [threat_intelligence] has exactly one row for each fingerprint, whether
    or not [attack_events] holds an event of its source, and the row
    carries the fingerprint's own columns. *)
Theorem threat_intelligence_one_row_each
  (fingerprints : list AttackerFingerprints.row)
  (attack_events : list AttackEvents.row) :
  NoDup (AttackerFingerprints.id <$> fingerprints) ->
  length (threat_intelligence fingerprints attack_events) = length fingerprints /\
  (forall af, af ∈ fingerprints ->
     exists r, r ∈ threat_intelligence fingerprints attack_events /\
       source_ip r = AttackerFingerprints.source_ip af /\
       first_seen r = AttackerFingerprints.first_seen af /\
       last_seen r = AttackerFingerprints.last_seen af /\
       total_requests r = AttackerFingerprints.total_requests af /\
       unique_endpoints r = AttackerFingerprints.unique_endpoints af /\
       risk_score r = AttackerFingerprints.risk_score af /\
       threat_level r = AttackerFingerprints.threat_level af /\
       is_bot r = AttackerFingerprints.is_bot af) /\
  (forall r, r ∈ threat_intelligence fingerprints attack_events ->
     exists af, af ∈ fingerprints /\
                source_ip r = AttackerFingerprints.source_ip af /\
                risk_score r = AttackerFingerprints.risk_score af).
Proof.
  intros Hkey.
  pose proof (threat_intelligence_perm fingerprints attack_events Hkey) as Hperm.
  split; [|split].
  - rewrite Hperm. apply length_fmap.
  - intros af Haf.
    exists (aggregate af (snd <$> left_join af attack_events)).
    split; [|repeat split].
    rewrite Hperm. apply list_elem_of_fmap. eauto.
  - intros r Hr.
    apply (threat_intelligence_row _ _ Hkey) in Hr as (af & Haf & ->). eauto.
Qed.

Lemma threat_intelligence_one_row_each_witness :
  length (threat_intelligence sample_fingerprints AttackStatistics.sample_events)
  = length sample_fingerprints.
Proof.
  apply (threat_intelligence_one_row_each sample_fingerprints
           AttackStatistics.sample_events).
  apply (bool_decide_unpack _). vm_compute. exact I.
Defined.

Lemma severity_counts_le (m : list AttackEvents.row) :
  sql_count (filter (fun ae => AttackEvents.severity ae = critical) m)
  + sql_count (filter (fun ae => AttackEvents.severity ae = high) m)
  <= sql_count m.
Proof.
  unfold sql_count. induction m as [|ae m IH]; [cbn; lia|].
  rewrite !filter_cons.
  destruct (decide (AttackEvents.severity ae = critical)) as [Hs|Hs],
    (decide (AttackEvents.severity ae = high)) as [Hs'|Hs'];
    cbn [length]; try lia.
  rewrite Hs in Hs'. discriminate.
Qed.

(** X18: when [id] is a key of [attacker_fingerprints], [critical_attacks]
    and [high_attacks] of a row count the critical and the high events of
    the row's source in [attack_events]; together they never exceed the
    number of events of that source. *)
Theorem threat_intelligence_severity_counts
  (fingerprints : list AttackerFingerprints.row)
  (attack_events : list AttackEvents.row) (r : row) :
  NoDup (AttackerFingerprints.id <$> fingerprints) ->
  r ∈ threat_intelligence fingerprints attack_events ->
  critical_attacks r
  = sql_count (filter (fun ae => AttackEvents.severity ae = critical)
                      (events_of (source_ip r) attack_events)) /\
  high_attacks r
  = sql_count (filter (fun ae => AttackEvents.severity ae = high)
                      (events_of (source_ip r) attack_events)) /\
  0 <= critical_attacks r /\ 0 <= high_attacks r /\
  critical_attacks r + high_attacks r
  <= sql_count (events_of (source_ip r) attack_events).
Proof.
  intros Hkey Hr.
  apply (threat_intelligence_row _ _ Hkey) in Hr as (af & Haf & ->).
  cbn [critical_attacks high_attacks source_ip aggregate].
  rewrite snd_left_join.
  destruct (events_of (AttackerFingerprints.source_ip af) attack_events)
    as [|e m] eqn:Hm.
  - repeat split; reflexivity || (cbn; lia).
  - rewrite !count_severity_some.
    split; [reflexivity|]. split; [reflexivity|].
    pose proof (severity_counts_le (e :: m)). unfold sql_count in *. lia.
Qed.

Lemma threat_intelligence_severity_counts_witness :
  exists r, r ∈ threat_intelligence sample_fingerprints
                  AttackStatistics.sample_events /\
            critical_attacks r = 1 /\ high_attacks r = 1 /\
            critical_attacks r + high_attacks r
            <= sql_count (events_of (source_ip r) AttackStatistics.sample_events).
Proof.
  assert (Hkey : NoDup (AttackerFingerprints.id <$> sample_fingerprints))
    by (apply (bool_decide_unpack _); vm_compute; exact I).
  set (r := aggregate (sample_fingerprint 1 "203.0.113.7" 68)
              (snd <$> left_join (sample_fingerprint 1 "203.0.113.7" 68)
                         AttackStatistics.sample_events)).
  assert (Hr : r ∈ threat_intelligence sample_fingerprints
                     AttackStatistics.sample_events)
    by (vm_compute; apply list_elem_of_here).
  destruct (threat_intelligence_severity_counts sample_fingerprints
              AttackStatistics.sample_events r Hkey Hr)
    as (Hc & Hh & _ & _ & Hle).
  exists r. split; [exact Hr|]. split; [reflexivity|]. split; [reflexivity|].
  exact Hle.
Defined.

(** X19: when [id] is a key of [attacker_fingerprints], the row of a
    fingerprint whose source has no event in [attack_events] has the
    one-element arrays {NULL} as [attack_types] and [countries] (not empty
    arrays), zero critical and high attacks and a NULL [last_attack_time];
    the row of a source with events lists in its arrays exactly the attack
    types and the countries of these events, with a NULL exactly when one
    of the events has none, and has a [last_attack_time]. *)
Theorem threat_intelligence_without_events
  (fingerprints : list AttackerFingerprints.row)
  (attack_events : list AttackEvents.row) (r : row) :
  NoDup (AttackerFingerprints.id <$> fingerprints) ->
  r ∈ threat_intelligence fingerprints attack_events ->
  (events_of (source_ip r) attack_events = [] ->
   attack_types r = [None] /\ countries r = [None] /\
   critical_attacks r = 0 /\ high_attacks r = 0 /\
   last_attack_time r = None) /\
  (events_of (source_ip r) attack_events <> [] ->
   (forall t, t ∈ attack_types r <->
              exists e, e ∈ events_of (source_ip r) attack_events /\
                        AttackEvents.attack_type e = t) /\
   (forall c, c ∈ countries r <->
              exists e, e ∈ events_of (source_ip r) attack_events /\
                        AttackEvents.country e = c) /\
   attack_types r <> [] /\ countries r <> [] /\
   is_Some (last_attack_time r)).
Proof.
  intros Hkey Hr.
  apply (threat_intelligence_row _ _ Hkey) in Hr as (af & Haf & ->).
  cbn [attack_types countries critical_attacks high_attacks last_attack_time
       source_ip aggregate].
  rewrite snd_left_join.
  destruct (events_of (AttackerFingerprints.source_ip af) attack_events)
    as [|e m] eqn:Hm.
  - split; [intros _; repeat split | congruence].
  - split; [discriminate|]. intros _.
    assert (Hmem : forall {B : Type} `{EqDecision B}
                     (f : AttackEvents.row -> option B) (x : option B),
               x ∈ remove_dups
                     ((fun ae : option AttackEvents.row => ae ≫= f)
                        <$> (Some <$> (e :: m)))
               <-> exists e', e' ∈ e :: m /\ f e' = x).
    { intros B ? f x.
      rewrite elem_of_remove_dups, <- list_fmap_compose, list_elem_of_fmap.
      split; intros (e' & H1 & H2); exists e'; cbn in *; auto. }
    split; [apply Hmem|]. split; [apply Hmem|].
    split; [apply remove_dups_nonempty; discriminate|].
    split; [apply remove_dups_nonempty; discriminate|].
    rewrite omap_timestamp_some.
    destruct (sql_max_timestamp_spec (AttackEvents.timestamp <$> (e :: m)))
      as (t & -> & _); [discriminate | eauto].
Qed.

Lemma threat_intelligence_without_events_witness :
  (exists r, r ∈ threat_intelligence sample_fingerprints
                   AttackStatistics.sample_events /\
             source_ip r = "192.0.2.9" /\
             attack_types r = [None] /\ countries r = [None] /\
             critical_attacks r = 0 /\ high_attacks r = 0 /\
             last_attack_time r = None) /\
  (exists r, r ∈ threat_intelligence [sample_fingerprint 3 "192.0.2.44" 20]
                   AttackStatistics.pending_events /\
             None ∈ attack_types r /\ Some sql_injection ∈ attack_types r).
Proof.
  split.
  - assert (Hkey : NoDup (AttackerFingerprints.id <$> sample_fingerprints))
      by (apply (bool_decide_unpack _); vm_compute; exact I).
    set (r := aggregate (sample_fingerprint 2 "192.0.2.9" 10)
                (snd <$> left_join (sample_fingerprint 2 "192.0.2.9" 10)
                           AttackStatistics.sample_events)).
    assert (Hr : r ∈ threat_intelligence sample_fingerprints
                       AttackStatistics.sample_events)
      by (vm_compute; right; apply list_elem_of_here).
    destruct (threat_intelligence_without_events sample_fingerprints
                AttackStatistics.sample_events r Hkey Hr) as [Hnone _].
    exists r. split; [exact Hr|]. split; [reflexivity|].
    apply Hnone. reflexivity.
  - assert (Hkey : NoDup (AttackerFingerprints.id
                            <$> [sample_fingerprint 3 "192.0.2.44" 20]))
      by (apply (bool_decide_unpack _); vm_compute; exact I).
    set (r := aggregate (sample_fingerprint 3 "192.0.2.44" 20)
                (snd <$> left_join (sample_fingerprint 3 "192.0.2.44" 20)
                           AttackStatistics.pending_events)).
    assert (Hr : r ∈ threat_intelligence [sample_fingerprint 3 "192.0.2.44" 20]
                       AttackStatistics.pending_events)
      by (vm_compute; apply list_elem_of_here).
    destruct (threat_intelligence_without_events
                [sample_fingerprint 3 "192.0.2.44" 20]
                AttackStatistics.pending_events r Hkey Hr) as [_ Hsome].
    destruct Hsome as (Htypes & _); [discriminate|].
    exists r. split; [exact Hr|]. split; apply Htypes.
    + exists (AttackStatistics.pending_event 8 100 "192.0.2.44").
      split; [vm_compute; apply list_elem_of_here | reflexivity].
    + exists (AttackStatistics.sample_event 10 300 "192.0.2.44" high).
      split; [vm_compute; do 2 right; apply list_elem_of_here | reflexivity].
Defined.

(** X20: when [id] is a key of [attacker_fingerprints],
    [last_attack_time] of a row is the timestamp of the latest event of
    the row's source: no event of that source is later, and one of them
    carries it. *)
Theorem threat_intelligence_last_attack_time
  (fingerprints : list AttackerFingerprints.row)
  (attack_events : list AttackEvents.row) (r : row) (ae : AttackEvents.row) :
  NoDup (AttackerFingerprints.id <$> fingerprints) ->
  r ∈ threat_intelligence fingerprints attack_events ->
  ae ∈ attack_events -> AttackEvents.source_ip ae = source_ip r ->
  exists t, last_attack_time r = Some t /\
            AttackEvents.timestamp ae <= t /\
            exists ae', ae' ∈ attack_events /\
                        AttackEvents.source_ip ae' = source_ip r /\
                        AttackEvents.timestamp ae' = t.
Proof.
  intros Hkey Hr Hae Hip.
  apply (threat_intelligence_row _ _ Hkey) in Hr as (af & Haf & ->).
  cbn [last_attack_time source_ip aggregate] in *.
  rewrite snd_left_join.
  assert (Hin : ae ∈ events_of (AttackerFingerprints.source_ip af) attack_events).
  { unfold events_of. apply list_elem_of_filter. auto. }
  destruct (events_of (AttackerFingerprints.source_ip af) attack_events)
    as [|e m] eqn:Hm; [now apply elem_of_nil in Hin|].
  rewrite omap_timestamp_some.
  destruct (sql_max_timestamp_spec (AttackEvents.timestamp <$> (e :: m)))
    as (t & Ht & Htin & Hmax); [discriminate|].
  exists t. split; [exact Ht|]. split.
  - apply Hmax, list_elem_of_fmap. eauto.
  - apply list_elem_of_fmap in Htin as (ae' & -> & Hae').
    exists ae'. rewrite <- Hm in Hae'. unfold events_of in Hae'.
    apply list_elem_of_filter in Hae' as [Hsrc Hae']. auto.
Qed.

Lemma threat_intelligence_last_attack_time_witness :
  exists r t, r ∈ threat_intelligence sample_fingerprints
                    AttackStatistics.sample_events /\
              last_attack_time r = Some t /\ 200 <= t.
Proof.
  assert (Hkey : NoDup (AttackerFingerprints.id <$> sample_fingerprints))
    by (apply (bool_decide_unpack _); vm_compute; exact I).
  set (r := aggregate (sample_fingerprint 1 "203.0.113.7" 68)
              (snd <$> left_join (sample_fingerprint 1 "203.0.113.7" 68)
                         AttackStatistics.sample_events)).
  assert (Hr : r ∈ threat_intelligence sample_fingerprints
                     AttackStatistics.sample_events)
    by (vm_compute; apply list_elem_of_here).
  destruct (threat_intelligence_last_attack_time sample_fingerprints
              AttackStatistics.sample_events r
              (AttackStatistics.sample_event 2 200 "203.0.113.7" critical)
              Hkey Hr) as (t & Ht & Hle & _).
  - unfold AttackStatistics.sample_events. right. left.
  - reflexivity.
  - exists r, t. auto.
Defined.

Lemma ti_listed_before_total (r1 r2 : row) :
  listed_before r1 r2 = false -> listed_before r2 r1 = true.
Proof.
  unfold listed_before.
  destruct (Qlt_le_dec (risk_score r2) (risk_score r1)) as [H21|H21];
    [discriminate|].
  destruct (Qlt_le_dec (risk_score r1) (risk_score r2)) as [H12|H12];
    [reflexivity|].
  assert (Heq : (risk_score r1 == risk_score r2)%Q) by (apply Qle_antisym; assumption).
  cbn [orb]. rewrite (proj2 (Qeq_bool_iff _ _) Heq).
  rewrite (proj2 (Qeq_bool_iff _ _) (Qeq_sym _ _ Heq)). cbn [andb].
  rewrite Z.leb_gt, Z.leb_le. lia.
Qed.

(** X21: the rows of [threat_intelligence] are listed by risk score,
    highest first, and among equal risk scores by last-seen, latest
    first. *)
Theorem threat_intelligence_ordered
  (fingerprints : list AttackerFingerprints.row)
  (attack_events : list AttackEvents.row) :
  Sorted (fun r1 r2 => (risk_score r2 < risk_score r1)%Q \/
                       ((risk_score r1 == risk_score r2)%Q /\
                        last_seen r2 <= last_seen r1))
         (threat_intelligence fingerprints attack_events).
Proof.
  unfold threat_intelligence.
  eapply Sorted_weaken; [|apply order_by_sorted, ti_listed_before_total].
  intros r1 r2. unfold listed_before.
  destruct (Qlt_le_dec (risk_score r2) (risk_score r1)); [auto|].
  cbn [orb]. rewrite andb_true_iff, Qeq_bool_iff, Z.leb_le. auto.
Qed.

End ThreatIntelligenceFacts.

(** ** Creating the custom types *)

Section CatalogFacts.

Import Catalog.

Lemma do_create_type_lookup (name name' : string) (labels : list string)
  (types : gmap string (list string)) :
  do_create_type name labels types !! name'
  = match types !! name' with
    | Some l => Some l
    | None => if decide (name = name') then Some labels else None
    end.
Proof.
  unfold do_create_type, create_type.
  destruct (types !! name) as [l|] eqn:Hn.
  - destruct (types !! name') as [l'|] eqn:Hn'; [reflexivity|].
    destruct (decide (name = name')) as [->|]; [congruence | reflexivity].
  - rewrite lookup_insert. destruct (decide (name = name')) as [->|].
    + rewrite Hn. reflexivity.
    + destruct (types !! name'); reflexivity.
Qed.

Lemma create_custom_types_lookup (name : string)
  (types : gmap string (list string)) :
  create_custom_types types !! name
  = match types !! name with
    | Some l => Some l
    | None =>
        if decide (name = "severity_level") then Some severity_level_enum
        else if decide (name = "attack_type") then Some attack_type_enum
        else if decide (name = "alert_status") then Some alert_status_enum
        else None
    end.
Proof.
  unfold create_custom_types. rewrite !do_create_type_lookup.
  destruct (types !! name) as [l|]; [reflexivity|].
  repeat case_decide; subst; try reflexivity; try congruence; discriminate.
Qed.

(** X28: creating the custom types never changes a type that exists, even
    one whose labels differ from those of [init.sql]; a type that is
    missing is created with the labels of [init.sql]; no other type is
    created; and running the blocks a second time changes nothing. *)
Theorem create_custom_types_idempotent (types : gmap string (list string)) :
  (forall name labels, types !! name = Some labels ->
                       create_custom_types types !! name = Some labels) /\
  (types !! "severity_level" = None ->
   create_custom_types types !! "severity_level" = Some severity_level_enum) /\
  (types !! "attack_type" = None ->
   create_custom_types types !! "attack_type" = Some attack_type_enum) /\
  (types !! "alert_status" = None ->
   create_custom_types types !! "alert_status" = Some alert_status_enum) /\
  (forall name, name <> "severity_level" -> name <> "attack_type" ->
                name <> "alert_status" ->
                create_custom_types types !! name = types !! name) /\
  create_custom_types (create_custom_types types) = create_custom_types types.
Proof.
  split; [|split; [|split; [|split; [|split]]]].
  - intros name labels H. rewrite create_custom_types_lookup, H. reflexivity.
  - intros H. rewrite create_custom_types_lookup, H. reflexivity.
  - intros H. rewrite create_custom_types_lookup, H. reflexivity.
  - intros H. rewrite create_custom_types_lookup, H. reflexivity.
  - intros name H1 H2 H3. rewrite create_custom_types_lookup.
    destruct (types !! name); [reflexivity|].
    rewrite !decide_False by assumption. reflexivity.
  - apply map_eq. intros name. rewrite !create_custom_types_lookup.
    destruct (types !! name); [reflexivity|].
    repeat case_decide; reflexivity.
Qed.

Lemma create_custom_types_idempotent_witness :
  create_custom_types drifted !! "severity_level"
  = Some ["info"; "warning"; "error"] /\
  create_custom_types drifted !! "alert_status" = Some alert_status_enum.
Proof.
  destruct (create_custom_types_idempotent drifted) as (Hkeep & _ & _ & Hnew & _).
  split; [apply Hkeep | apply Hnew]; reflexivity.
Defined.

End CatalogFacts.

(** * Properties of the dashboard components *)

Section DashboardFacts.

Import Dashboard.

Lemma ge_finite (q c : Q) : ge (Finite q) c = true <-> (c <= q)%Q.
Proof. apply Qle_bool_iff. Qed.

Lemma ge_finite_false (q c : Q) : ge (Finite q) c = false <-> (q < c)%Q.
Proof.
  rewrite <- not_true_iff_false, ge_finite. split.
  - apply Qnot_le_lt.
  - intros H H'. apply (Qlt_not_le _ _ H), H'.
Qed.

(** The shape shared by [getRiskColor] and [getStatusCodeColor]. *)
Lemma three_thresholds_monotone (a b c q q' : Q) :
  (a <= b)%Q -> (b <= c)%Q -> (q <= q')%Q ->
  alarm_level (if ge (Finite q) c then "error"
               else if ge (Finite q) b then "warning"
               else if ge (Finite q) a then "info" else "success")
  <= alarm_level (if ge (Finite q') c then "error"
                  else if ge (Finite q') b then "warning"
                  else if ge (Finite q') a then "info" else "success").
Proof.
  intros Hab Hbc Hq.
  destruct (ge (Finite q) c) eqn:Hc, (ge (Finite q) b) eqn:Hb,
    (ge (Finite q) a) eqn:Ha, (ge (Finite q') c) eqn:Hc',
    (ge (Finite q') b) eqn:Hb', (ge (Finite q') a) eqn:Ha';
    try (cbn; lia); exfalso;
    rewrite ?ge_finite, ?ge_finite_false in *; lra.
Qed.

(** X22: [getRiskColor] never makes a higher risk score look less
    alarming: the colour goes from success through info and warning to
    error as the score grows, with error exactly from 80 on and success
    exactly below 40; its result is always one of these four colours, and a
    score that is NaN is shown as success. *)
Theorem getRiskColor_monotone :
  (forall q q', (q <= q')%Q ->
     alarm_level (getRiskColor (Finite q))
     <= alarm_level (getRiskColor (Finite q'))) /\
  (forall q, getRiskColor (Finite q) = "error" <-> (80 <= q)%Q) /\
  (forall q, getRiskColor (Finite q) = "success" <-> (q < 40)%Q) /\
  (forall x, getRiskColor x ∈ ["error"; "warning"; "info"; "success"]) /\
  getRiskColor NaN = "success".
Proof.
  split; [|split; [|split; [|split]]].
  - intros q q' Hq. unfold getRiskColor.
    apply three_thresholds_monotone; [lra | lra | exact Hq].
  - intros q. unfold getRiskColor. rewrite <- ge_finite.
    destruct (ge (Finite q) 80), (ge (Finite q) 60), (ge (Finite q) 40);
      split; (discriminate || reflexivity).
  - intros q. unfold getRiskColor. rewrite <- ge_finite_false.
    destruct (ge (Finite q) 80) eqn:H80, (ge (Finite q) 60) eqn:H60,
      (ge (Finite q) 40) eqn:H40; split; try (discriminate || reflexivity);
      intros _; exfalso; rewrite ?ge_finite, ?ge_finite_false in *; lra.
  - intros x. unfold getRiskColor.
    destruct (ge x 80), (ge x 60), (ge x 40); set_solver.
  - reflexivity.
Qed.

(** X23: [getStatusCodeColor] is monotone in the status code in the same
    sense, with error exactly from 500 on and success exactly below 300:
    every 1xx and 2xx code, and any smaller number, is shown as success,
    and so is NaN. *)
Theorem getStatusCodeColor_monotone :
  (forall q q', (q <= q')%Q ->
     alarm_level (getStatusCodeColor (Finite q))
     <= alarm_level (getStatusCodeColor (Finite q'))) /\
  (forall q, getStatusCodeColor (Finite q) = "error" <-> (500 <= q)%Q) /\
  (forall q, getStatusCodeColor (Finite q) = "success" <-> (q < 300)%Q) /\
  (forall x, getStatusCodeColor x ∈ ["error"; "warning"; "info"; "success"]) /\
  getStatusCodeColor NaN = "success".
Proof.
  split; [|split; [|split; [|split]]].
  - intros q q' Hq. unfold getStatusCodeColor.
    apply three_thresholds_monotone; [lra | lra | exact Hq].
  - intros q. unfold getStatusCodeColor. rewrite <- ge_finite.
    destruct (ge (Finite q) 500), (ge (Finite q) 400), (ge (Finite q) 300);
      split; (discriminate || reflexivity).
  - intros q. unfold getStatusCodeColor. rewrite <- ge_finite_false.
    destruct (ge (Finite q) 500) eqn:H5, (ge (Finite q) 400) eqn:H4,
      (ge (Finite q) 300) eqn:H3; split; try (discriminate || reflexivity);
      intros _; exfalso; rewrite ?ge_finite, ?ge_finite_false in *; lra.
  - intros x. unfold getStatusCodeColor.
    destruct (ge x 500), (ge x 400), (ge x 300); set_solver.
  - reflexivity.
Qed.

Lemma getSeverityColor_other (str : string) :
  (forall s, str <> severity_label s) -> getSeverityColor str = "default".
Proof.
  intros Hne. unfold getSeverityColor.
  pose proof (proj2 (String.eqb_neq _ _) (Hne critical)) as Hc.
  pose proof (proj2 (String.eqb_neq _ _) (Hne high)) as Hh.
  pose proof (proj2 (String.eqb_neq _ _) (Hne medium)) as Hm.
  pose proof (proj2 (String.eqb_neq _ _) (Hne low)) as Hl.
  cbn [severity_label] in Hc, Hh, Hm, Hl.
  rewrite Hc, Hh, Hm, Hl. reflexivity.
Qed.

(** X24: on the four labels of [severity_level], [getSeverityColor]
    gives four different colours, more alarming for a higher severity and
    never "default"; on every other string (the comparison is exact, so
    also on "High" or "CRITICAL") it gives "default". *)
Theorem getSeverityColor_labels :
  (forall s1 s2,
      severity_le s1 s2 = true <->
      alarm_level (getSeverityColor (severity_label s1))
      <= alarm_level (getSeverityColor (severity_label s2))) /\
  (forall s1 s2,
      getSeverityColor (severity_label s1) = getSeverityColor (severity_label s2)
      -> s1 = s2) /\
  (forall s, getSeverityColor (severity_label s) <> "default") /\
  (forall str, (forall s, str <> severity_label s) ->
               getSeverityColor str = "default").
Proof.
  split; [|split; [|split]].
  - intros [] []; cbn; split; intros H; try reflexivity; try discriminate;
      try lia.
  - intros [] []; cbn; intros H; try reflexivity; discriminate.
  - intros []; cbn; discriminate.
  - apply getSeverityColor_other.
Qed.

Lemma getSeverityColor_labels_witness :
  getSeverityColor "High" = "default".
Proof.
  destruct getSeverityColor_labels as (_ & _ & _ & Hother).
  apply Hother. intros []; discriminate.
Defined.

(** X25: an attack marker is red for critical, amber for high and blue
    for medium; for low and for every string that is not a severity label
    it is the same green, so a marker of unknown severity cannot be told
    from a low one. *)
Theorem markerColor_unknown_as_low :
  markerColor "critical" = "#ef4444" /\ markerColor "high" = "#f59e0b" /\
  markerColor "medium" = "#3b82f6" /\ markerColor "low" = "#10b981" /\
  (forall str, (forall s, str <> severity_label s) ->
               markerColor str = markerColor "low").
Proof.
  repeat split. intros str Hne. unfold markerColor.
  rewrite (getSeverityColor_other str Hne). reflexivity.
Qed.

Lemma markerColor_unknown_as_low_witness :
  markerColor "unknown" = markerColor "low".
Proof.
  destruct markerColor_unknown_as_low as (_ & _ & _ & _ & Hother).
  apply Hother. intros []; discriminate.
Defined.

(** X26: the user agent shown by [RecentAttacks] is the user agent itself
    when it has at most 50 characters, and otherwise its first 50
    characters followed by three dots: the label never has more than 53
    characters and always starts like the user agent. *)
Theorem userAgentLabel_bounded (userAgent : string) :
  (String.length (userAgentLabel userAgent) <= 53)%nat /\
  ((String.length userAgent <= 50)%nat -> userAgentLabel userAgent = userAgent) /\
  ((50 < String.length userAgent)%nat ->
   String.length (userAgentLabel userAgent) = 53%nat /\
   userAgentLabel userAgent = String.substring 0 50 userAgent +:+ "...") /\
  String.substring 0 50 (userAgentLabel userAgent)
  = String.substring 0 50 userAgent.
Proof.
  unfold userAgentLabel.
  destruct (Nat.ltb 50 (String.length userAgent)) eqn:Hlt.
  - apply Nat.ltb_lt in Hlt.
    assert (Hlen : String.length (String.substring 0 50 userAgent) = 50%nat).
    { rewrite length_substring_0. lia. }
    assert (Hl : String.length (String.substring 0 50 userAgent +:+ "...") = 53%nat).
    { rewrite length_append, Hlen. reflexivity. }
    split; [lia|]. split; [lia|]. split; [auto|].
    rewrite <- Hlen at 1. apply substring_take.
  - apply Nat.ltb_ge in Hlt.
    split; [lia|]. split; [reflexivity|]. split; [lia | reflexivity].
Qed.

Lemma userAgentLabel_bounded_witness :
  userAgentLabel "Mozilla/5.0 (Windows NT 10.0; Win64; x64) AppleWebKit/537.36"
  = String.substring 0 50
      "Mozilla/5.0 (Windows NT 10.0; Win64; x64) AppleWebKit/537.36" +:+ "...".
Proof.
  destruct (userAgentLabel_bounded
    "Mozilla/5.0 (Windows NT 10.0; Win64; x64) AppleWebKit/537.36")
    as (_ & _ & Hlong & _).
  apply Hlong. vm_compute. lia.
Defined.

(** X27: [replace('_', ' ')] keeps the length of an attack type and turns
    its first underscore only into a space: a type without underscore is
    unchanged, one underscore disappears, and of several all but one
    remain in the label. *)
Theorem replace_underscore_first_only (s : string) :
  String.length (replace_underscore s) = String.length s /\
  occurrences "_" (replace_underscore s) = Nat.pred (occurrences "_" s) /\
  (occurrences "_" s = 0%nat -> replace_underscore s = s) /\
  occurrences " " (replace_underscore s)
  = (occurrences " " s + Nat.min 1 (occurrences "_" s))%nat.
Proof.
  induction s as [|c s (IHl & IHo & IHn & IHs)]; [repeat split|].
  cbn [replace_underscore occurrences].
  destruct (Ascii.eqb c "_") eqn:Hc.
  - apply Ascii.eqb_eq in Hc as ->. cbn [String.length occurrences].
    change (Ascii.eqb " " "_") with false. change (Ascii.eqb "_" " ") with false.
    change (Ascii.eqb "_" "_") with true. change (Ascii.eqb " " " ") with true.
    cbn [Nat.add Nat.pred].
    split; [reflexivity|]. split; [reflexivity|]. split; [discriminate|].
    rewrite Nat.min_l by lia. lia.
  - cbn [String.length occurrences]. rewrite Hc, IHl, IHo, IHs. cbn [Nat.add].
    split; [reflexivity|]. split; [reflexivity|].
    split; [intros H; rewrite IHn by exact H; reflexivity | lia].
Qed.

Lemma replace_underscore_first_only_witness :
  replace_underscore "sql_injection" = "sql injection" /\
  replace_underscore "cross_site_scripting" = "cross site_scripting" /\
  replace_underscore "xss" = "xss".
Proof.
  destruct (replace_underscore_first_only "xss") as (_ & _ & Hnone & _).
  split; [reflexivity|]. split; [reflexivity|]. apply Hnone. reflexivity.
Defined.

End DashboardFacts.
